(** * EpicBot: the Epic / task checklist synchroniser

    A shallow embedding of the GitHub action in [src/unnamed/part_001]
    (the action's [index.js]) and the properties of its natural-language
    specification.

    Modelling conventions.
    - A JavaScript string is the list of its UTF-16 code units, each a
      number in [N].  Literals are written [js "..."].
    - Issue numbers are JavaScript numbers holding non-negative integers;
      they are modelled in [N].  The model's arithmetic is that of the
      source on the integers below 2^53 ([safe_integer]), which a double
      holds exactly and among which GitHub's issue numbers lie.
    - An issue without description is delivered with the body [null]
      ([Payload]); the functions that split the body throw on it.
    - Every [await octokit...] is a step of a state monad over [World]:
      the issue store, the log of calls and a failure schedule that says
      which calls throw.  [core.setFailed] is counted in the same world.
    - [console.log] is left out.  Each [await] of the source sits in its
      own [try], so a call that throws shows as a value ([None], [false])
      that the caller tests at once. *)

From Stdlib Require Import NArith Ascii String DecimalN.
From stdpp Require Import base option list gmap.

Local Open Scope N_scope.

(** ** JavaScript strings *)

Abbreviation jsstring := (list N).

Definition js (s : string) : jsstring :=
  N_of_ascii <$> list_ascii_of_string s.

Definition LF : N := 10.
Definition CR : N := 13.
Definition SPACE : N := 32.

(** [s.startsWith(p)] *)
Fixpoint startsWith (s p : jsstring) {struct p} : bool :=
  match p, s with
  | [], _ => true
  | _ :: _, [] => false
  | c :: p', d :: s' => (c =? d) && startsWith s' p'
  end.

(** [s.endsWith(p)] *)
Definition endsWith (s p : jsstring) : bool :=
  startsWith (reverse s) (reverse p).

(** [s.split(/\r?\n/g)]: a line ends at a line feed, and a carriage return
    just before that line feed belongs to the separator.  The result is
    never empty: the empty string splits into one empty line. *)
Fixpoint split_lines (s : jsstring) : list jsstring :=
  match s with
  | [] => [[]]
  | c :: rest =>
      if c =? LF then [] :: split_lines rest
      else
        match rest with
        | d :: rest' =>
            if (c =? CR) && (d =? LF) then [] :: split_lines rest'
            else match split_lines rest with
                 | l :: ls => (c :: l) :: ls
                 | [] => [[c]]
                 end
        | [] => [[c]]
        end
  end.

(** [lines.join(sep)] *)
Fixpoint join (sep : jsstring) (ls : list jsstring) : jsstring :=
  match ls with
  | [] => []
  | [l] => l
  | l :: ls' => l ++ sep ++ join sep ls'
  end.

Definition CRLF : jsstring := [CR; LF].

(** JavaScript truthiness of a string: every string but the empty one. *)
Definition truthy (s : jsstring) : bool :=
  match s with [] => false | _ :: _ => true end.

(** ** Numbers and their decimal spelling *)

(** The integers a JavaScript number holds exactly.  Below this bound
    [String(n)] is the decimal spelling of [n], and [parseInt] and the
    conversion of [!=] give the exact value of a string of digits; above
    it the source rounds. *)
Definition safe_integer (n : N) : Prop := n < 2 ^ 53.

(** [String(n)] for a safe integer [n]: its decimal spelling. *)
Fixpoint digits_of_uint (u : Decimal.uint) : jsstring :=
  match u with
  | Decimal.Nil => []
  | Decimal.D0 u => 48 :: digits_of_uint u
  | Decimal.D1 u => 49 :: digits_of_uint u
  | Decimal.D2 u => 50 :: digits_of_uint u
  | Decimal.D3 u => 51 :: digits_of_uint u
  | Decimal.D4 u => 52 :: digits_of_uint u
  | Decimal.D5 u => 53 :: digits_of_uint u
  | Decimal.D6 u => 54 :: digits_of_uint u
  | Decimal.D7 u => 55 :: digits_of_uint u
  | Decimal.D8 u => 56 :: digits_of_uint u
  | Decimal.D9 u => 57 :: digits_of_uint u
  end.

Definition toString (n : N) : jsstring := digits_of_uint (N.to_uint n).

Definition is_digit (c : N) : bool := (48 <=? c) && (c <=? 57).

Fixpoint uint_of_digits (s : jsstring) : option Decimal.uint :=
  match s with
  | [] => Some Decimal.Nil
  | c :: s' =>
      u ← uint_of_digits s';
      match c - 48 with
      | 0 => if 48 <=? c then Some (Decimal.D0 u) else None
      | 1 => Some (Decimal.D1 u)
      | 2 => Some (Decimal.D2 u)
      | 3 => Some (Decimal.D3 u)
      | 4 => Some (Decimal.D4 u)
      | 5 => Some (Decimal.D5 u)
      | 6 => Some (Decimal.D6 u)
      | 7 => Some (Decimal.D7 u)
      | 8 => Some (Decimal.D8 u)
      | 9 => Some (Decimal.D9 u)
      | _ => None
      end
  end.

(** The numeric value of a string of decimal digits, as [parseInt] and the
    string-to-number conversion of [!=] compute it when that value is a
    safe integer.  The only strings the source converts are captures of
    [[0-9]+]; for any other string the model answers [None] (the source
    would see [NaN], unequal to every issue number). *)
Definition toNumber (s : jsstring) : option N :=
  match s with
  | [] => None
  | _ => N.of_uint <$> uint_of_digits s
  end.

(** [parseInt(digits)] for digits that spell a safe integer; the source
    applies it to [number] captures only. *)
Definition parseInt (digits : jsstring) : N := default 0 (toNumber digits).

(** [digits != n] between the [number] capture and an issue number [n]
    that is a safe integer: the capture then differs from [n] exactly when
    its value does, whatever its length. *)
Definition number_ne (digits : jsstring) (n : N) : bool :=
  match toNumber digits with
  | Some v => negb (v =? n)
  | None => true
  end.

(** ** The task expression

    The source's [taskExpression] is a regular expression without anchors
    and without flags.  Its pieces, in order:
    - group [pre]: any number of spaces;
    - the literal text dash, space, opening bracket;
    - group [closed]: one character, any but a line terminator;
    - the literal text closing bracket, space, hash;
    - group [number]: one or more of the digits 0 to 9;
    - any number of spaces (outside every group);
    - group [title]: any number of characters that are no line terminator. *)

Record Match := mkMatch {
  pre : jsstring;
  closed : jsstring;
  number : jsstring;
  title : jsstring
}.

(** The characters [.] refuses: the line terminators of ECMAScript. *)
Definition is_line_terminator (c : N) : bool :=
  (c =? LF) || (c =? CR) || (c =? 8232) || (c =? 8233).

Definition is_space (c : N) : bool := c =? SPACE.

(** The longest prefix whose characters satisfy [p], and what follows. *)
Fixpoint span (p : N -> bool) (s : jsstring) : jsstring * jsstring :=
  match s with
  | [] => ([], [])
  | c :: s' =>
      if p c then let (a, b) := span p s' in (c :: a, b) else ([], s)
  end.

(** Consume the literal [p] at the head of [s]. *)
Fixpoint literal (p s : jsstring) {struct p} : option jsstring :=
  match p, s with
  | [], _ => Some s
  | _ :: _, [] => None
  | c :: p', d :: s' => if c =? d then literal p' s' else None
  end.

(** An attempt of the expression at the head of [s].  Every quantifier is
    greedy and none ever has to give a character back: after [ *] the
    pattern wants [-], which is no space; after [[0-9]+] and after the
    second [ *] the rest of the pattern matches anything. *)
Definition match_here (s : jsstring) : option Match :=
  let (p, r1) := span is_space s in
  match literal (js "- [") r1 with
  | None => None
  | Some [] => None
  | Some (c :: r3) =>
      if is_line_terminator c then None
      else
        match literal (js "] #") r3 with
        | None => None
        | Some r4 =>
            let (num, r5) := span is_digit r4 in
            match num with
            | [] => None
            | _ :: _ =>
                let (_, r6) := span is_space r5 in
                let (t, _) := span (fun c => negb (is_line_terminator c)) r6 in
                Some (mkMatch p [c] num t)
            end
        end
  end.

(** [taskExpression.exec(line)]: the expression is not anchored, so the
    attempt is repeated at each position from the left until one succeeds. *)
Fixpoint taskExpression_exec (line : jsstring) : option Match :=
  match match_here line with
  | Some m => Some m
  | None =>
      match line with
      | [] => None
      | _ :: line' => taskExpression_exec line'
      end
  end.

(** ** The issue store and the calls the action makes

    [octokit] and [core] are the action's collaborators.  The model keeps
    what the source can observe of them: an issue is fetched, its body or
    its state is replaced, a comment is posted, a timeline is listed; any
    of these calls may throw. *)

(** What the repository holds for one issue. *)
Record Stored := mkStored {
  stored_title : jsstring;
  stored_state : jsstring;
  stored_body : jsstring
}.

(** An issue whose body is a text, or whose body is not read: the task of
    [updateTask], the response of a fetch, an Epic with a description. *)
Record Issue := mkIssue {
  issue_number : N;
  issue_title : jsstring;
  issue_state : jsstring;
  issue_body : jsstring
}.

(** An issue as the event payload or an entry of a timeline delivers it:
    the body is [null] ([None]) when the issue has no description. *)
Record Payload := mkPayload {
  payload_number : N;
  payload_title : jsstring;
  payload_state : jsstring;
  payload_body : option jsstring
}.

(** The payload of an issue whose body is a text. *)
Definition delivered (i : Issue) : Payload :=
  mkPayload (issue_number i) (issue_title i) (issue_state i) (Some (issue_body i)).

(** The issue of a payload, once its body is known to be the given text. *)
Definition with_body (p : Payload) (body : jsstring) : Issue :=
  mkIssue (payload_number p) (payload_title p) (payload_state p) body.

(** An entry of an issue's timeline: [event.event], [event.source.type]
    and [event.source.issue]. *)
Record Event := mkEvent {
  event_event : jsstring;
  source_type : jsstring;
  source_issue : Payload
}.

Inductive Call :=
| IssuesGet (n : N)
| IssuesUpdateBody (n : N) (body : jsstring)
| IssuesUpdateState (n : N) (state : jsstring)
| IssuesCreateComment (n : N) (body : jsstring)
| IssuesListEventsForTimeline (n : N).

Record World := mkWorld {
  issues : gmap N Stored;
  timeline : N -> list Event;
  calls : list Call;      (* the calls that went through, oldest first *)
  attempts : nat;         (* the calls made so far, thrown ones included *)
  fails : nat -> bool;    (* [fails k]: the call made after [k] others throws *)
  setFailed : nat         (* how often [core.setFailed] was called *)
}.

Definition M (A : Type) : Type := World -> A * World.

Definition ret {A} (a : A) : M A := fun w => (a, w).

Definition bind {A B} (m : M A) (k : A -> M B) : M B :=
  fun w => let (a, w') := m w in k a w'.

Notation "x <- m ;; k" := (bind m (fun x => k))
  (at level 100, m at next level, right associativity).
Notation "m ;;; k" := (bind m (fun _ => k))
  (at level 100, right associativity).

Definition throws (w : World) : bool := fails w (attempts w).

Definition attempt (w : World) : World :=
  mkWorld (issues w) (timeline w) (calls w) (S (attempts w)) (fails w)
    (setFailed w).

Definition went_through (c : Call) (store : gmap N Stored) (w : World) : World :=
  mkWorld store (timeline w) (calls w ++ [c]) (S (attempts w)) (fails w)
    (setFailed w).

(** [core.setFailed(err)] *)
Definition core_setFailed : M unit :=
  fun w =>
    (tt, mkWorld (issues w) (timeline w) (calls w) (attempts w) (fails w)
           (S (setFailed w))).

(** [await octokit.issues.get({issue_number: n})]; [None] when it throws,
    as it also does for a number the repository does not have. *)
Definition octokit_issues_get (n : N) : M (option Issue) :=
  fun w =>
    if throws w then (None, attempt w)
    else match issues w !! n with
         | None => (None, attempt w)
         | Some s =>
             (Some (mkIssue n (stored_title s) (stored_state s) (stored_body s)),
              went_through (IssuesGet n) (issues w) w)
         end.

(** [await octokit.issues.update({issue_number: n, body: b})]; [false] when
    it throws. *)
Definition octokit_issues_update_body (n : N) (b : jsstring) : M bool :=
  fun w =>
    if throws w then (false, attempt w)
    else match issues w !! n with
         | None => (false, attempt w)
         | Some s =>
             (true,
              went_through (IssuesUpdateBody n b)
                (<[n := mkStored (stored_title s) (stored_state s) b]> (issues w)) w)
         end.

(** [await octokit.issues.update({issue_number: n, state: st})] *)
Definition octokit_issues_update_state (n : N) (st : jsstring) : M bool :=
  fun w =>
    if throws w then (false, attempt w)
    else match issues w !! n with
         | None => (false, attempt w)
         | Some s =>
             (true,
              went_through (IssuesUpdateState n st)
                (<[n := mkStored (stored_title s) st (stored_body s)]> (issues w)) w)
         end.

(** [await octokit.issues.createComment({issue_number: n, body: b})] *)
Definition octokit_issues_createComment (n : N) (b : jsstring) : M bool :=
  fun w =>
    if throws w then (false, attempt w)
    else match issues w !! n with
         | None => (false, attempt w)
         | Some _ => (true, went_through (IssuesCreateComment n b) (issues w) w)
         end.

(** [await octokit.issues.listEventsForTimeline({issue_number: n})] *)
Definition octokit_issues_listEventsForTimeline (n : N) : M (option (list Event)) :=
  fun w =>
    if throws w then (None, attempt w)
    else (Some (timeline w n),
          went_through (IssuesListEventsForTimeline n) (issues w) w).

(** The calls that change the repository: everything but the two reads. *)
Definition is_mutation (c : Call) : bool :=
  match c with
  | IssuesGet _ | IssuesListEventsForTimeline _ => false
  | _ => true
  end.

Definition mutations (w : World) : list Call :=
  List.filter is_mutation (calls w).

(** ** The action *)

(** What a JavaScript function of the action hands back.  The bare
    [return;] of the source stands in handlers around [updateTask] and
    [updateTaskInEpic], which catch inside themselves whatever their calls
    throw; [ReturnsUndefined] is therefore never produced here. *)
Inductive Returned := ReturnsTrue | ReturnsFalse | ReturnsUndefined.

(** What [updateTask] resolves to: [null], [false], or the object
    [{ line, comment }] whose [comment] may be [null]. *)
Inductive TaskUpdate :=
| UpdateNull
| UpdateFalse
| UpdateObject (line : jsstring) (comment : option jsstring).

(** How the call of a function that splits a body ends: with the value it
    returns, or with the [TypeError] that [null.split] throws. *)
Inductive Settled (A : Type) :=
| Fulfilled (a : A)
| TypeError.
Arguments Fulfilled {A} a.
Arguments TypeError {A}.

(** What [updateTaskInEpic] resolves to: [null] or [{ body, comment }]. *)
Inductive EpicUpdate :=
| EpicNull
| EpicObject (body : jsstring) (comment : option jsstring).

(** [if (result.comment)]: a comment is posted when it is neither [null]
    nor the empty string. *)
Definition comment_truthy (c : option jsstring) : bool :=
  match c with Some s => truthy s | None => false end.

(** The line both branches of [updateTask] rebuild:
    [pre + "- [" + (isClosed ? "x" : " ") + "] #" + number + " " + title]. *)
Definition renderLine (p : jsstring) (isClosed : bool) (n : N) (t : jsstring)
  : jsstring :=
  p ++ js "- [" ++ (if isClosed then js "x" else js " ") ++ js "] #"
    ++ toString n ++ js " " ++ t.

Definition closed_word (b : bool) : jsstring :=
  if b then js "closed" else js "open".

(** [match.groups.closed === "x"] *)
Definition epicIssueClosed (m : Match) : bool :=
  bool_decide (closed m = js "x").

(** [taskIssue.state === "closed"] *)
Definition taskIssueClosed (taskIssue : Issue) : bool :=
  bool_decide (issue_state taskIssue = js "closed").

(** [epicIssueClosed != taskIssueClosed] and
    [match.groups.title != taskIssue.title] *)
Definition updateState (m : Match) (taskIssue : Issue) : bool :=
  negb (Bool.eqb (epicIssueClosed m) (taskIssueClosed taskIssue)).

Definition updateTitle (m : Match) (taskIssue : Issue) : bool :=
  negb (bool_decide (title m = issue_title taskIssue)).

(** Spell out the literals of the goal as lists of code units. *)
Ltac js_compute :=
  repeat match goal with
  | |- context [js ?s] =>
      let v := eval vm_compute in (js s) in change (js s) with v
  end.

Section EpicBot.

(** The action's inputs, read once when the module is loaded. *)
Variable epicPrefix : jsstring.
Variable tasksMarker : jsstring.
Variable closeCompletedEpics : jsstring.

(** [updateTask(epicNumber, taskLine, taskIssue, taskIsTruth)] *)
Definition updateTask (epicNumber : N) (taskLine : jsstring) (taskIssue : Issue)
    (taskIsTruth : bool) : M TaskUpdate :=
  match taskExpression_exec taskLine with
  | None => ret UpdateNull
  | Some m =>
    if number_ne (number m) (issue_number taskIssue) then ret UpdateNull
    else
      let updateState := updateState m taskIssue in
      let updateTitle := updateTitle m taskIssue in
      if negb updateTitle && negb updateState then ret UpdateNull
      else if taskIsTruth then
        let newLine :=
          renderLine (pre m) (taskIssueClosed taskIssue) (issue_number taskIssue)
            (issue_title taskIssue) in
        let comment :=
          if updateState && updateTitle then
            Some (js "`EpicBot` refreshed the title for task #"
                  ++ toString (issue_number taskIssue) ++ js " and marked it as `"
                  ++ closed_word (taskIssueClosed taskIssue) ++ js "`.")
          else if updateState then
            Some (js "`EpicBot` marked task #" ++ toString (issue_number taskIssue)
                  ++ js " as `" ++ closed_word (taskIssueClosed taskIssue)
                  ++ js "`.")
          else if updateTitle then
            Some (js "`EpicBot` refreshed the title for task #"
                  ++ toString (issue_number taskIssue) ++ js ".")
          else None in
        ret (UpdateObject newLine comment)
      else
        let finish :=
          let newLine :=
            renderLine (pre m) (epicIssueClosed m) (issue_number taskIssue)
              (issue_title taskIssue) in
          let comment :=
            if updateState && updateTitle then
              Some (js "`EpicBot` "
                    ++ (if epicIssueClosed m then js "closed" else js "opened")
                    ++ js " task #" ++ toString (issue_number taskIssue)
                    ++ js " following changes in the Epic, and refreshed its title.")
            else if updateState then
              (* the source builds the text here and drops it *)
              None
            else if updateTitle then
              Some (js "`EpicBot` refreshed the title for task #"
                    ++ toString (issue_number taskIssue) ++ js ".")
            else None in
          ret (UpdateObject newLine comment) in
        if updateState then
          ok <- octokit_issues_update_state (issue_number taskIssue)
                  (closed_word (epicIssueClosed m)) ;;
          if negb ok then core_setFailed ;;; ret UpdateFalse
          else
            ok' <- octokit_issues_createComment (issue_number taskIssue)
                     (js "`EpicBot` "
                      ++ (if epicIssueClosed m then js "closed" else js "re-opened")
                      ++ js " this issue following changes in Epic #"
                      ++ toString epicNumber ++ js ".") ;;
            if negb ok' then core_setFailed ;;; ret UpdateFalse
            else finish
        else finish
  end.

(** *** [closeEpicIfComplete]

    The scan of [closeEpicIfComplete]: [None] when the loop leaves the
    function with [return false] at an open task, otherwise the count
    [nTasks] the loop ends with. *)
Fixpoint closeEpic_scan (inWorkload : bool) (nTasks : N) (body : list jsstring)
  : option N :=
  match body with
  | [] => Some nTasks
  | line :: rest =>
      let after_heading (inWorkload : bool) :=
        if negb inWorkload then closeEpic_scan inWorkload nTasks rest
        else
          match taskExpression_exec line with
          | None => closeEpic_scan inWorkload nTasks rest
          | Some m =>
              if negb (epicIssueClosed m) then None
              else closeEpic_scan inWorkload (nTasks + 1) rest
          end in
      if startsWith line (js "#") then
        if endsWith line tasksMarker then closeEpic_scan true nTasks rest
        else if inWorkload then Some nTasks
        else after_heading inWorkload
      else after_heading inWorkload
  end.

(** Whether [closeEpicIfComplete] gets past its two early [return false]:
    the function's verdict on the body. *)
Definition epicIsComplete (epicBody : jsstring) : bool :=
  match closeEpic_scan false 0 (split_lines epicBody) with
  | None => false
  | Some nTasks => negb (nTasks =? 0)
  end.

Definition closeEpicIfComplete (epicNumber : N) (epicBody : jsstring) : M bool :=
  if negb (epicIsComplete epicBody) then ret false
  else
    ok <- octokit_issues_createComment epicNumber
            (js "`EpicBot` closed this Epic as all tasks are complete.") ;;
    if negb ok then core_setFailed ;;; ret false
    else
      ok' <- octokit_issues_update_state epicNumber (js "closed") ;;
      if negb ok' then core_setFailed ;;; ret false
      else ret true.

(** *** [updateEpic] *)

(** How the loop of [updateEpic] ends: with a [return] out of the function,
    or by running off the array or a [break], leaving the lines from the
    current one on as given. *)
Inductive EpicLoop :=
| LoopReturns (r : Returned)
| LoopEnds (body : list jsstring).

Definition keep_line (line : jsstring) (l : EpicLoop) : EpicLoop :=
  match l with
  | LoopReturns r => LoopReturns r
  | LoopEnds body => LoopEnds (line :: body)
  end.

(** The loop over [body[i]].  It writes [body[i]] only at the index it is
    visiting, so the array it leaves is the list of the lines it leaves,
    in order.  The response of a fetch that did not throw is an object, so
    the source's test [if (!taskIssue)] never fires and is left out. *)
Fixpoint updateEpic_loop (epicNumber : N) (inWorkload : bool)
    (body : list jsstring) : M EpicLoop :=
  match body with
  | [] => ret (LoopEnds [])
  | line :: rest =>
      let continue (inWorkload : bool) (line : jsstring) : M EpicLoop :=
        l <- updateEpic_loop epicNumber inWorkload rest ;;
        ret (keep_line line l) in
      let after_heading (inWorkload : bool) : M EpicLoop :=
        if negb inWorkload then continue inWorkload line
        else
          match taskExpression_exec line with
          | None => continue inWorkload line
          | Some m =>
              taskIssue <- octokit_issues_get (parseInt (number m)) ;;
              match taskIssue with
              | None => core_setFailed ;;; ret (LoopReturns ReturnsFalse)
              | Some taskIssue =>
                  result <- updateTask epicNumber line taskIssue false ;;
                  match result with
                  | UpdateNull | UpdateFalse => continue inWorkload line
                  | UpdateObject newLine comment =>
                      if comment_truthy comment then
                        ok <- octokit_issues_createComment epicNumber
                                (default [] comment) ;;
                        if negb ok then
                          core_setFailed ;;; ret (LoopReturns ReturnsFalse)
                        else continue inWorkload newLine
                      else continue inWorkload newLine
                  end
              end
          end in
      if startsWith line (js "#") then
        if endsWith line tasksMarker then continue true line
        else if inWorkload then ret (LoopEnds (line :: rest))
        else after_heading inWorkload
      else after_heading inWorkload
  end.

(** [updateEpic(epicIssue)] for an Epic whose body is a text. *)
Definition updateEpic (epicIssue : Issue) : M Returned :=
  l <- updateEpic_loop (issue_number epicIssue) false
         (split_lines (issue_body epicIssue)) ;;
  match l with
  | LoopReturns r => ret r
  | LoopEnds body =>
      let newBody := join CRLF body in
      ok <- octokit_issues_update_body (issue_number epicIssue) newBody ;;
      if negb ok then core_setFailed ;;; ret ReturnsFalse
      else if truthy closeCompletedEpics then
        closeEpicIfComplete (issue_number epicIssue) newBody ;;; ret ReturnsTrue
      else ret ReturnsTrue
  end.

(** [updateEpic(epicIssue)] for an Epic as it is delivered.  On the body
    [null] the first statement that reads it, [epicIssue.body.split],
    throws before any call is made; [run] catches the error. *)
Definition updateEpic_delivered (epicIssue : Payload) : M (Settled Returned) :=
  match payload_body epicIssue with
  | None => ret TypeError
  | Some body =>
      r <- updateEpic (with_body epicIssue body) ;; ret (Fulfilled r)
  end.

(** *** [updateTaskInEpic] *)

(** The loop of [updateTaskInEpic] at index [i]; [rest] holds the lines
    from [body[i]] on and [body] is the whole array, written once, just
    before the function returns. *)
Fixpoint updateTaskInEpic_loop (epicNumber : N) (taskIssue : Issue)
    (body : list jsstring) (inWorkload : bool) (i : nat) (rest : list jsstring)
  : M EpicUpdate :=
  match rest with
  | [] => ret EpicNull
  | line :: rest' =>
      let continue (inWorkload : bool) :=
        updateTaskInEpic_loop epicNumber taskIssue body inWorkload (S i) rest' in
      let after_heading (inWorkload : bool) : M EpicUpdate :=
        if negb inWorkload then continue inWorkload
        else
          match taskExpression_exec line with
          | None => continue inWorkload
          | Some m =>
              if number_ne (number m) (issue_number taskIssue)
              then continue inWorkload
              else
                result <- updateTask epicNumber line taskIssue true ;;
                match result with
                | UpdateNull | UpdateFalse => ret EpicNull
                | UpdateObject newLine comment =>
                    ret (EpicObject (join CRLF (<[i := newLine]> body)) comment)
                end
          end in
      if startsWith line (js "#") then
        if endsWith line tasksMarker then continue true
        else if inWorkload then ret EpicNull
        else after_heading inWorkload
      else after_heading inWorkload
  end.

(** [updateTaskInEpic(epicNumber, epicBody, taskIssue)] for a body that
    is a text. *)
Definition updateTaskInEpic (epicNumber : N) (epicBody : jsstring)
    (taskIssue : Issue) : M EpicUpdate :=
  let body := split_lines epicBody in
  updateTaskInEpic_loop epicNumber taskIssue body false 0%nat body.

(** [updateTaskInEpic(epicNumber, epicBody, taskIssue)] for a body as it is
    delivered: on [null], [epicBody.split] throws at once. *)
Definition updateTaskInEpic_delivered (epicNumber : N)
    (epicBody : option jsstring) (taskIssue : Issue) : M (Settled EpicUpdate) :=
  match epicBody with
  | None => ret TypeError
  | Some body =>
      r <- updateTaskInEpic epicNumber body taskIssue ;; ret (Fulfilled r)
  end.

(** *** [updateEpicFromTask] *)

(** The loop over [timeline.data]. *)
Fixpoint updateEpicFromTask_loop (taskIssue : Issue) (events : list Event)
  : M Returned :=
  match events with
  | [] => ret ReturnsTrue
  | event :: rest =>
      let continue := updateEpicFromTask_loop taskIssue rest in
      if negb (bool_decide (event_event event = js "cross-referenced"))
      then continue
      else if negb (bool_decide (source_type event = js "issue")) then continue
      else
        let epicIssue := source_issue event in
        if negb (startsWith (payload_title epicIssue) epicPrefix) then continue
        else
          result <- updateTaskInEpic_delivered (payload_number epicIssue)
                      (payload_body epicIssue) taskIssue ;;
          match result with
          | TypeError => core_setFailed ;;; ret ReturnsUndefined
          | Fulfilled EpicNull => ret ReturnsFalse
          | Fulfilled (EpicObject newBody comment) =>
              ok <- octokit_issues_update_body (payload_number epicIssue) newBody ;;
              if negb ok then core_setFailed ;;; ret ReturnsFalse
              else
                let close_and_continue :=
                  if truthy closeCompletedEpics then
                    closeEpicIfComplete (payload_number epicIssue) newBody ;;;
                    continue
                  else continue in
                if comment_truthy comment then
                  ok' <- octokit_issues_createComment (payload_number epicIssue)
                           (default [] comment) ;;
                  if negb ok' then core_setFailed ;;; ret ReturnsFalse
                  else close_and_continue
                else close_and_continue
          end
  end.

Definition updateEpicFromTask (taskIssue : Issue) : M Returned :=
  timeline <- octokit_issues_listEventsForTimeline (issue_number taskIssue) ;;
  match timeline with
  | None => core_setFailed ;;; ret ReturnsFalse
  | Some data => updateEpicFromTask_loop taskIssue data
  end.


(** *** [run] *)

(** [run()], given [context.payload.issue] when the event carries one.
    The error of an Epic with the body [null] is caught and reported; the
    body of a task is never read, so the task is handed on with the number,
    the title and the state it was delivered with. *)
Definition run (sourceIssue : option Payload) : M unit :=
  match sourceIssue with
  | None => ret tt
  | Some sourceIssue =>
      if bool_decide (epicPrefix = []) then core_setFailed
      else if bool_decide (tasksMarker = []) then core_setFailed
      else if startsWith (payload_title sourceIssue) epicPrefix then
        result <- updateEpic_delivered sourceIssue ;;
        match result with
        | TypeError => core_setFailed
        | Fulfilled _ => ret tt
        end
      else
        updateEpicFromTask
          (with_body sourceIssue (default [] (payload_body sourceIssue))) ;;;
        ret tt
  end.

(** ** The vocabulary of the specification *)

(** The text of a checklist line as the specification writes it: indent,
    dash, status character in brackets, hash and number, one space, title. *)
Definition checklist_text (indent status : jsstring) (n : N) (t : jsstring)
  : jsstring :=
  indent ++ js "- [" ++ status ++ js "] #" ++ toString n ++ js " " ++ t.

Definition status_text (isClosed : bool) : jsstring :=
  if isClosed then js "x" else js " ".

Definition valid_checklist_line (L : jsstring) : Prop :=
  exists indent status n t,
    Forall (fun c => c = SPACE) indent
    /\ (status = js "x" \/ status = js " ")
    /\ L = checklist_text indent status n t.

(** Rendering the parse of a line: the task expression takes the line
    apart and [renderLine] puts the parts together again. *)
Definition render_parse (line : jsstring) : option jsstring :=
  match taskExpression_exec line with
  | None => None
  | Some m =>
      Some (renderLine (pre m) (epicIssueClosed m) (parseInt (number m))
              (title m))
  end.

(** A title the expression hands back whole: it does not begin with a
    space, which the spaces before the title would take, and holds no line
    terminator, where the title would stop. *)
Definition plain_title (t : jsstring) : Prop :=
  head t <> Some SPACE /\ Forall (fun c => is_line_terminator c = false) t.

(** *** The completion verdict in the words of the specification

    The definitions of this part follow the text of the specification
    (sections 3, 4.1, 4.2, 4.6 and 6), not the source; they are what the
    source's [closeEpicIfComplete] is compared with. *)

(** A ChecklistLine. *)
Record ChecklistLine := mkChecklistLine {
  line_indent : jsstring;
  line_closed : bool;
  line_taskNumber : N;
  line_title : jsstring
}.

(** TaskLineParser: the line is, from its first character on, leading
    spaces, dash, space, one status character in brackets, space, hash,
    digits, one separating space and the title, which is the rest of the
    line; [closed] is true exactly when the status character is [x]. *)
Definition spec_parse (line : jsstring) : option ChecklistLine :=
  let (indent, r1) := span is_space line in
  match literal (js "- [") r1 with
  | Some (status :: r2) =>
      match literal (js "] #") r2 with
      | Some r3 =>
          let (digits, r4) := span is_digit r3 in
          match digits, r4 with
          | _ :: _, c :: t =>
              if c =? SPACE
              then Some (mkChecklistLine indent (bool_decide ([status] = js "x"))
                           (parseInt digits) t)
              else None
          | _, _ => None
          end
      | None => None
      end
  | _ => None
  end.

(** WorkloadSectionLocator: the states of the scan, and the candidate
    lines of the section.  A heading is a line that starts with [#]. *)
Inductive ScanState := Seeking | InSection | Done.

Fixpoint spec_section (st : ScanState) (lines : list jsstring) : list jsstring :=
  match lines with
  | [] => []
  | line :: rest =>
      let heading := startsWith line (js "#") in
      match st with
      | Seeking =>
          if heading && endsWith line tasksMarker
          then spec_section InSection rest
          else spec_section Seeking rest
      | InSection =>
          if heading && negb (endsWith line tasksMarker)
          then spec_section Done rest
          else line :: spec_section InSection rest
      | Done => []
      end
  end.

(** The ChecklistLines of the section, in order. *)
Definition spec_checklist (body : jsstring) : list ChecklistLine :=
  omap spec_parse (spec_section Seeking (split_lines body)).

(** CompletionEvaluator: false with no task, false at an open line, true
    when there is a task and every task is closed. *)
Definition spec_isComplete (body : jsstring) : bool :=
  match spec_checklist body with
  | [] => false
  | tasks => forallb line_closed tasks
  end.

(** *** The workload section as the source scans it *)

(** The lines that the scans of [updateEpic], [updateTaskInEpic] and
    [closeEpicIfComplete] offer to the task expression, each with its
    index in the body.  The section opens after the first heading that
    ends with the marker and closes before the next heading that does not;
    headings are never offered. *)
Fixpoint workload_from (inWorkload : bool) (i : nat) (body : list jsstring)
  : list (nat * jsstring) :=
  match body with
  | [] => []
  | line :: rest =>
      if startsWith line (js "#") && endsWith line tasksMarker
      then workload_from true (S i) rest
      else if startsWith line (js "#") && inWorkload then []
      else if inWorkload then (i, line) :: workload_from inWorkload (S i) rest
      else workload_from inWorkload (S i) rest
  end.

(** The lines of that section which the source's task expression matches,
    anywhere in the line, in order. *)
Definition checklist_from (inWorkload : bool) (i : nat) (body : list jsstring)
  : list (nat * Match) :=
  omap (fun il => pair il.1 <$> taskExpression_exec il.2)
       (workload_from inWorkload i body).

Definition checklist (epicBody : jsstring) : list (nat * Match) :=
  checklist_from false 0%nat (split_lines epicBody).


(** ** The vocabulary of a repeated Epic-driven pass *)

(** No call is scheduled to throw. *)
Definition nofail (w : World) : Prop := forall k, fails w k = false.

Definition stored_closed (s : Stored) : bool :=
  bool_decide (stored_state s = js "closed").

(** The checklist line says of its task what the repository holds:
    the task exists, is closed exactly when the line is, and has the
    title on the line. *)
Definition in_sync (store : gmap N Stored) (m : Match) : Prop :=
  exists s, store !! parseInt (number m) = Some s
            /\ epicIssueClosed m = stored_closed s
            /\ title m = stored_title s.



(** What the loop of [updateEpic] does on a line the task expression
    matched: [None] when it leaves the function with [return false],
    otherwise the line it leaves in [body[i]]. *)
Definition updateEpic_line (epicNumber : N) (line : jsstring) (m : Match)
  : M (option jsstring) :=
  taskIssue <- octokit_issues_get (parseInt (number m)) ;;
  match taskIssue with
  | None => core_setFailed ;;; ret None
  | Some taskIssue =>
      result <- updateTask epicNumber line taskIssue false ;;
      match result with
      | UpdateNull | UpdateFalse => ret (Some line)
      | UpdateObject newLine comment =>
          if comment_truthy comment then
            ok <- octokit_issues_createComment epicNumber (default [] comment) ;;
            if negb ok then core_setFailed ;;; ret None
            else ret (Some newLine)
          else ret (Some newLine)
      end
  end.


(** ** The vocabulary of call logs *)


(** The call that persists a body. *)
Definition is_persist (c : Call) : bool :=
  match c with IssuesUpdateBody _ _ => true | _ => false end.



(** [w'] comes after [w]: calls have been added to the log, all of them
    satisfying [P]; [core.setFailed] may have been called; the repository
    holds the same issues, and the schedule is the same. *)
Definition steps (P : Call -> Prop) (w w' : World) : Prop :=
  (exists cs, calls w' = calls w ++ cs /\ Forall P cs)
  /\ (setFailed w <= setFailed w')%nat
  /\ (forall n, issues w' !! n = None <-> issues w !! n = None)
  /\ fails w' = fails w
  /\ timeline w' = timeline w.

(** The events [updateEpicFromTask] acts on: cross-references from an
    issue whose title carries the Epic prefix. *)
Definition is_epic_reference (event : Event) : bool :=
  bool_decide (event_event event = js "cross-referenced")
  && bool_decide (source_type event = js "issue")
  && startsWith (payload_title (source_issue event)) epicPrefix.




(** ** Repositories to run the action on *)

Definition never : nat -> bool := fun _ => false.

(** A repository holding the given issues, before any call. *)
Definition repository (l : list (N * Stored)) (tl : N -> list Event)
    (fails : nat -> bool) : World :=
  mkWorld (list_to_map l) tl [] 0 fails 0.

Definition no_timeline : N -> list Event := fun _ => [].

(** An Epic, number 10, listing the tasks 1 and 2 as closed, in a
    repository where both are open. *)
Definition release_body : jsstring :=
  js "## Workload" ++ [LF] ++ js "- [x] #1 A" ++ [LF] ++ js "- [x] #2 B".

Definition release_epic : Issue :=
  mkIssue 10 (js "Epic: release") (js "open") release_body.

Definition release_repository (fails : nat -> bool) : World :=
  repository
    [(10, mkStored (js "Epic: release") (js "open") release_body);
     (1, mkStored (js "A") (js "open") []);
     (2, mkStored (js "B") (js "open") [])]
    no_timeline fails.



(** Two Epics for which a repeated pass is not quiet: one lists task 1
    twice, closed and open; the other lists a task whose title begins with
    a space. *)
Definition twice_listed_epic : Issue :=
  mkIssue 10 (js "Epic: release") (js "open")
    (js "## Workload" ++ CRLF ++ js "- [x] #1 A" ++ CRLF ++ js "- [ ] #1 A").

Definition twice_listed_repository : World :=
  repository
    [(10, mkStored (js "Epic: release") (js "open") (issue_body twice_listed_epic));
     (1, mkStored (js "A") (js "open") [])]
    no_timeline never.

Definition spaced_title_epic : Issue :=
  mkIssue 10 (js "Epic: release") (js "open")
    (js "## Workload" ++ CRLF ++ js "- [x] #1  A").

Definition spaced_title_repository : World :=
  repository
    [(10, mkStored (js "Epic: release") (js "open") (issue_body spaced_title_epic));
     (1, mkStored (js " A") (js "closed") [])]
    no_timeline never.


Definition missing_task_epic : Issue :=
  mkIssue 10 (js "Epic: release") (js "open")
    (js "## Workload" ++ [LF] ++ js "- [x] #3 C").


Definition bug_report : Issue := mkIssue 12 (js "Bug: crash") (js "open") [].

(** A closed task, number 5, referenced from two Epics: Epic 10 does not
    list it, Epic 11 lists it as open. *)
Definition task5 : Issue := mkIssue 5 (js "T") (js "closed") [].

Definition epic10 : Issue :=
  mkIssue 10 (js "Epic: one") (js "open")
    (js "## Workload" ++ [LF] ++ js "- [ ] #6 Other").

Definition epic11 : Issue :=
  mkIssue 11 (js "Epic: two") (js "open")
    (js "## Workload" ++ [LF] ++ js "- [ ] #5 T").

Definition cross_referenced (epic : Issue) : Event :=
  mkEvent (js "cross-referenced") (js "issue") (delivered epic).

(** An Epic without description, as it is delivered, and an event by which
    it references a task. *)
Definition blank_epic : Payload :=
  mkPayload 13 (js "Epic: blank") (js "open") None.


(** A body whose workload section has one closed task line and one line
    with a checkbox after other text. *)
Definition see_also_body : jsstring :=
  js "## Workload" ++ [LF] ++ js "- [x] #1 A" ++ [LF]
  ++ js "see also - [ ] #2 B".

Definition fanout_repository (events : list Event) : World :=
  repository
    [(5, mkStored (js "T") (js "closed") []);
     (10, mkStored (issue_title epic10) (js "open") (issue_body epic10));
     (11, mkStored (issue_title epic11) (js "open") (issue_body epic11))]
    (fun n => if n =? 5 then events else []) never.

(** * Properties *)

(** ** Worked examples of the string layer *)

Example exec_plain :
  taskExpression_exec (js "  - [x] #12 Fix it") =
  Some (mkMatch (js "  ") (js "x") (js "12") (js "Fix it")).
Proof. vm_compute. reflexivity. Qed.

Example exec_not_a_task : taskExpression_exec (js "- [x] 12 Fix it") = None.
Proof. vm_compute. reflexivity. Qed.

Example split_crlf :
  split_lines (js "a" ++ [CR; LF] ++ js "b" ++ [LF] ++ [CR]) = [js "a"; js "b"; [CR]].
Proof. vm_compute. reflexivity. Qed.

Example toString_42 : toString 42 = js "42" /\ toNumber (js "042") = Some 42.
Proof. vm_compute. split; reflexivity. Qed.

(** ** The string layer *)

Section Strings.

Implicit Types (s t p : jsstring) (c : N).

Lemma span_app (f : N -> bool) s t :
  Forall (fun c => f c = true) s ->
  head (f <$> t) <> Some true ->
  span f (s ++ t) = (s, t).
Proof.
  intros Hs Ht. induction Hs as [|c s Hc _ IH]; simpl.
  - destruct t as [|d t]; simpl in *; [reflexivity|].
    destruct (f d); [congruence | reflexivity].
  - rewrite Hc, IH. reflexivity.
Qed.

Lemma span_all (f : N -> bool) s :
  Forall (fun c => f c = true) s -> span f s = (s, []).
Proof.
  intros Hs. rewrite <- (app_nil_r s) at 1. apply span_app; [assumption|].
  simpl. congruence.
Qed.

Lemma span_fst_Forall (f : N -> bool) s :
  Forall (fun c => f c = true) (span f s).1.
Proof.
  induction s as [|c s IH]; simpl; [constructor|].
  destruct (f c) eqn:Hc; [|constructor].
  destruct (span f s) as [a b]. simpl in *. constructor; assumption.
Qed.

Lemma span_app_eq (f : N -> bool) s : (span f s).1 ++ (span f s).2 = s.
Proof.
  induction s as [|c s IH]; simpl; [reflexivity|].
  destruct (f c); [|reflexivity].
  destruct (span f s) as [a b]. simpl in *. congruence.
Qed.

Lemma literal_app p s : literal p (p ++ s) = Some s.
Proof.
  induction p as [|c p IH]; simpl; [reflexivity|].
  rewrite N.eqb_refl. exact IH.
Qed.

Lemma literal_Some p s r : literal p s = Some r -> s = p ++ r.
Proof.
  revert s. induction p as [|c p IH]; intros s H; simpl in *.
  - congruence.
  - destruct s as [|d s]; [discriminate|].
    destruct (N.eqb_spec c d) as [->|]; [|discriminate].
    f_equal. apply IH, H.
Qed.

Lemma startsWith_app s p : startsWith (p ++ s) p = true.
Proof.
  induction p as [|c p IH]; simpl; [reflexivity|].
  rewrite N.eqb_refl. exact IH.
Qed.

Lemma digits_of_uint_digits u :
  Forall (fun c => is_digit c = true) (digits_of_uint u).
Proof. induction u; simpl; constructor; auto. Qed.

Lemma uint_of_digits_of_uint u : uint_of_digits (digits_of_uint u) = Some u.
Proof. induction u; simpl; [reflexivity | rewrite IHu; reflexivity ..]. Qed.

Lemma toString_digits n : Forall (fun c => is_digit c = true) (toString n).
Proof. apply digits_of_uint_digits. Qed.

Lemma toString_nonempty n : toString n <> [].
Proof.
  unfold toString. destruct n as [|q]; simpl; [discriminate|].
  pose proof (DecimalPos.Unsigned.to_uint_nonnil q) as Hq.
  destruct (Pos.to_uint q); simpl; congruence.
Qed.

Lemma toNumber_toString n : toNumber (toString n) = Some n.
Proof.
  unfold toNumber. pose proof (toString_nonempty n) as Hn.
  destruct (toString n) eqn:E; [congruence|]. rewrite <- E.
  unfold toString. rewrite uint_of_digits_of_uint. simpl.
  f_equal. apply DecimalN.Unsigned.of_to.
Qed.

Lemma number_ne_toString n k : number_ne (toString n) k = negb (n =? k).
Proof. unfold number_ne. rewrite toNumber_toString. reflexivity. Qed.

Lemma parseInt_toString n : parseInt (toString n) = n.
Proof. unfold parseInt. rewrite toNumber_toString. reflexivity. Qed.

End Strings.

(** ** Lines: splitting what was joined *)

Lemma split_lines_nonempty s : split_lines s <> [].
Proof.
  destruct s as [|c rest]; cbn [split_lines]; [discriminate|].
  destruct (c =? LF); [discriminate|].
  destruct rest as [|d rest']; [discriminate|].
  destruct ((c =? CR) && (d =? LF)); [discriminate|].
  destruct (split_lines (d :: rest')); discriminate.
Qed.

Lemma split_lines_cons c rest :
  split_lines (c :: rest) =
  if c =? LF then [] :: split_lines rest
  else if (c =? CR) && bool_decide (head rest = Some LF)
       then [] :: split_lines (tail rest)
       else match split_lines rest with
            | l :: ls => (c :: l) :: ls
            | [] => [[c]]
            end.
Proof.
  cbn [split_lines]. destruct (c =? LF); [reflexivity|].
  destruct rest as [|d rest']; cbn [head tail].
  - rewrite bool_decide_eq_false_2 by discriminate.
    rewrite andb_false_r. reflexivity.
  - destruct (N.eqb_spec d LF) as [->|Hd].
    + rewrite bool_decide_eq_true_2 by reflexivity. reflexivity.
    + rewrite bool_decide_eq_false_2 by congruence. reflexivity.
Qed.

Lemma split_lines_no_LF s : Forall (fun l => LF ∉ l) (split_lines s).
Proof.
  remember (length s) as k eqn:Hk. revert s Hk.
  induction (lt_wf k) as [k _ IH]. intros s ->.
  destruct s as [|c rest].
  - cbn. repeat constructor. apply not_elem_of_nil.
  - rewrite split_lines_cons. destruct (N.eqb_spec c LF) as [->|Hc].
    + constructor; [apply not_elem_of_nil|].
      apply (IH (length rest)); [cbn; lia | reflexivity].
    + destruct ((c =? CR) && bool_decide (head rest = Some LF)).
      * constructor; [apply not_elem_of_nil|].
        apply (IH (length (tail rest))); [|reflexivity].
        destruct rest; cbn; lia.
      * pose proof (IH (length rest) ltac:(cbn; lia) rest eq_refl) as Hrest.
        destruct (split_lines rest) as [|l ls].
        -- repeat constructor. intros Hin. apply list_elem_of_singleton in Hin.
           congruence.
        -- inversion Hrest as [|? ? Hl Hls]; subst. constructor; [|exact Hls].
           intros Hin. apply elem_of_cons in Hin as [Hin|Hin]; [congruence|].
           contradiction.
Qed.

Lemma split_lines_one l : LF ∉ l -> split_lines l = [l].
Proof.
  induction l as [|c l IH]; intros Hl; [reflexivity|].
  rewrite split_lines_cons.
  apply not_elem_of_cons in Hl as [Hc Hl].
  destruct (N.eqb_spec c LF) as [->|_]; [congruence|].
  rewrite bool_decide_eq_false_2.
  - rewrite andb_false_r, IH by exact Hl. reflexivity.
  - destruct l as [|d l]; cbn; [discriminate|].
    intros [= ->]. apply Hl. apply elem_of_cons. left. reflexivity.
Qed.

Lemma split_lines_app_CRLF l rest :
  LF ∉ l -> split_lines (l ++ CRLF ++ rest) = l :: split_lines rest.
Proof.
  induction l as [|c l IH]; intros Hl.
  - cbn [app CRLF]. rewrite split_lines_cons. reflexivity.
  - apply not_elem_of_cons in Hl as [Hc Hl].
    cbn [app]. rewrite split_lines_cons.
    destruct (N.eqb_spec c LF) as [->|_]; [congruence|].
    rewrite bool_decide_eq_false_2.
    + rewrite andb_false_r. cbn [app] in IH. rewrite IH by exact Hl. reflexivity.
    + destruct l as [|d l]; cbn; [discriminate|].
      intros [= ->]. apply Hl. apply elem_of_cons. left. reflexivity.
Qed.

Lemma split_lines_join ls :
  ls <> [] -> Forall (fun l => LF ∉ l) ls -> split_lines (join CRLF ls) = ls.
Proof.
  induction ls as [|l ls IH]; intros Hne Hls; [congruence|].
  inversion Hls as [|? ? Hl Hls']; subst.
  destruct ls as [|l' ls].
  - cbn. apply split_lines_one, Hl.
  - cbn [join]. rewrite split_lines_app_CRLF by exact Hl.
    f_equal. apply IH; [discriminate | exact Hls'].
Qed.

(** ** The task expression on a rendered line *)

Lemma exec_match_here line m :
  match_here line = Some m -> taskExpression_exec line = Some m.
Proof.
  intros H. destruct line; cbn [taskExpression_exec]; rewrite H; reflexivity.
Qed.

Lemma match_here_renderLine p b n t :
  Forall (fun c => c = SPACE) p -> plain_title t ->
  match_here (renderLine p b n t)
  = Some (mkMatch p (status_text b) (toString n) t).
Proof.
  intros Hp [Hhd Hlt]. unfold match_here, renderLine.
  rewrite span_app; cycle 1.
  { eapply Forall_impl; [exact Hp|]. intros c ->. reflexivity. }
  { js_compute. cbn. discriminate. }
  rewrite (literal_app (js "- [")).
  assert (Hs : exists c, (if b then js "x" else js " ") = [c]
                         /\ status_text b = [c]
                         /\ is_line_terminator c = false).
  { destruct b; eexists; repeat split; reflexivity. }
  destruct Hs as (c & -> & -> & Hc). cbn [app]. rewrite Hc.
  rewrite (literal_app (js "] #")).
  rewrite span_app; cycle 1.
  { apply toString_digits. }
  { js_compute. cbn. discriminate. }
  pose proof (toString_nonempty n) as Hn.
  destruct (toString n) as [|d ds] eqn:En; [congruence|].
  change (js " " ++ t) with ([SPACE] ++ t).
  rewrite span_app; cycle 1.
  { repeat constructor. }
  { destruct t as [|e t]; cbn; [discriminate|].
    cbn in Hhd. unfold is_space. destruct (N.eqb_spec e SPACE); congruence. }
  rewrite span_all; [reflexivity|].
  eapply Forall_impl; [exact Hlt|]. intros e ->. reflexivity.
Qed.

Lemma exec_renderLine p b n t :
  Forall (fun c => c = SPACE) p -> plain_title t ->
  taskExpression_exec (renderLine p b n t)
  = Some (mkMatch p (status_text b) (toString n) t).
Proof. intros Hp Ht. apply exec_match_here, match_here_renderLine; assumption. Qed.

(** ** What the task expression captures *)

Lemma match_here_inv s m :
  match_here s = Some m ->
  Forall (fun c => c = SPACE) (pre m)
  /\ Forall (fun c => is_digit c = true) (number m)
  /\ number m <> []
  /\ plain_title (title m).
Proof.
  unfold match_here.
  pose proof (span_fst_Forall is_space s) as Hp.
  destruct (span is_space s) as [p r1].
  destruct (literal (js "- [") r1) as [[|c r3]|]; try discriminate.
  destruct (is_line_terminator c); [discriminate|].
  destruct (literal (js "] #") r3) as [r4|]; [|discriminate].
  pose proof (span_fst_Forall is_digit r4) as Hd.
  destruct (span is_digit r4) as [num r5].
  destruct num as [|d ds]; [discriminate|].
  pose proof (span_fst_Forall is_space r5) as Hs.
  pose proof (span_app_eq is_space r5) as Hs5.
  assert (Hhd : head (span is_space r5).2 <> Some SPACE).
  { clear. induction r5 as [|c r IH]; cbn; [discriminate|].
    destruct (is_space c) eqn:Hc.
    - destruct (span is_space r). exact IH.
    - cbn. unfold is_space in Hc. apply N.eqb_neq in Hc. congruence. }
  destruct (span is_space r5) as [sp r6].
  pose proof (span_fst_Forall (fun c => negb (is_line_terminator c)) r6) as Ht.
  destruct (span (fun c => negb (is_line_terminator c)) r6) as [t r7] eqn:Et.
  intros [= <-]. cbn [pre number title fst snd] in *.
  split.
  { eapply Forall_impl; [exact Hp|]. intros c0 H0. apply N.eqb_eq, H0. }
  split; [exact Hd|]. split; [discriminate|].
  split.
  - destruct r6 as [|e r6']; cbn in Et.
    + injection Et as <- <-. cbn. discriminate.
    + destruct (negb (is_line_terminator e)).
      * destruct (span (fun c => negb (is_line_terminator c)) r6').
        injection Et as <- <-. exact Hhd.
      * injection Et as <- <-. cbn. discriminate.
  - eapply Forall_impl; [exact Ht|]. intros c0 H0. apply negb_true_iff, H0.
Qed.

Lemma exec_inv line m :
  taskExpression_exec line = Some m ->
  Forall (fun c => c = SPACE) (pre m)
  /\ Forall (fun c => is_digit c = true) (number m)
  /\ number m <> []
  /\ plain_title (title m).
Proof.
  induction line as [|c line IH]; cbn [taskExpression_exec];
    destruct (match_here _) as [m'|] eqn:Hm; intros H;
    try discriminate; try (injection H as <-; apply match_here_inv in Hm; exact Hm).
  apply IH, H.
Qed.



Lemma startsWith_renderLine p b n t :
  Forall (fun c => c = SPACE) p -> startsWith (renderLine p b n t) (js "#") = false.
Proof.
  intros Hp. unfold renderLine. destruct Hp as [|c p -> _]; reflexivity.
Qed.

Lemma renderLine_no_LF p b n t :
  Forall (fun c => c = SPACE) p -> plain_title t -> LF ∉ renderLine p b n t.
Proof.
  intros Hp [_ Ht]. unfold renderLine.
  assert (Hdig : LF ∉ toString n).
  { pose proof (toString_digits n) as Hd. rewrite Forall_forall in Hd.
    intros Hin. apply Hd in Hin. discriminate. }
  assert (Htl : LF ∉ t).
  { rewrite Forall_forall in Ht. intros Hin. apply Ht in Hin. discriminate. }
  assert (Hpre : LF ∉ p).
  { rewrite Forall_forall in Hp. intros Hin. apply Hp in Hin. discriminate. }
  rewrite !elem_of_app. intros Hin.
  assert (Hlit : forall s, LF ∈ js s -> In LF (js s))
    by (intros s Hs; apply list_elem_of_In, Hs).
  destruct Hin as [?|[Hin|[Hin|[Hin|[?|[Hin|?]]]]]]; try contradiction.
  - apply Hlit in Hin. cbn in Hin. intuition discriminate.
  - destruct b; apply Hlit in Hin; cbn in Hin; intuition discriminate.
  - apply Hlit in Hin. cbn in Hin. intuition discriminate.
  - apply Hlit in Hin. cbn in Hin. intuition discriminate.
Qed.

(** ** Rendering the parse of a line *)

Lemma checklist_text_renderLine indent b n t :
  checklist_text indent (status_text b) n t = renderLine indent b n t.
Proof. destruct b; reflexivity. Qed.

Lemma epicIssueClosed_status p b num t :
  epicIssueClosed (mkMatch p (status_text b) num t) = b.
Proof. destruct b; reflexivity. Qed.

(** C1 (amended).  A checklist line whose indent is spaces only, whose
    status character is [x] or a space, whose number is the decimal spelling
    of a non-negative integer below 2^53 and whose title neither begins
    with a space nor holds a line terminator is reproduced exactly,
    character for character, by rendering its parse. *)
Theorem C1_render_parse_round_trip indent b n t :
  Forall (fun c => c = SPACE) indent ->
  safe_integer n ->
  plain_title t ->
  render_parse (checklist_text indent (status_text b) n t)
  = Some (checklist_text indent (status_text b) n t).
Proof.
  intros Hi _ Ht. unfold render_parse.
  rewrite checklist_text_renderLine, exec_renderLine by assumption.
  cbn [pre number title]. rewrite epicIssueClosed_status, parseInt_toString.
  reflexivity.
Qed.

(** ** Calls that do not throw *)

Lemma nofail_went_through c store w : nofail w -> nofail (went_through c store w).
Proof. intros H k. apply H. Qed.


Lemma createComment_nofail n b w :
  nofail w ->
  octokit_issues_createComment n b w =
  match issues w !! n with
  | None => (false, attempt w)
  | Some _ => (true, went_through (IssuesCreateComment n b) (issues w) w)
  end.
Proof.
  intros H. unfold octokit_issues_createComment, throws. rewrite H. reflexivity.
Qed.

Lemma update_state_nofail n st w :
  nofail w ->
  octokit_issues_update_state n st w =
  match issues w !! n with
  | None => (false, attempt w)
  | Some s =>
      (true,
       went_through (IssuesUpdateState n st)
         (<[n := mkStored (stored_title s) st (stored_body s)]> (issues w)) w)
  end.
Proof.
  intros H. unfold octokit_issues_update_state, throws. rewrite H. reflexivity.
Qed.




(** ** [updateTask] *)

Lemma number_ne_false digits n :
  number_ne digits n = false -> toNumber digits = Some n /\ parseInt digits = n.
Proof.
  unfold number_ne, parseInt. destruct (toNumber digits) as [v|]; [|discriminate].
  intros H. apply negb_false_iff, N.eqb_eq in H. subst. split; reflexivity.
Qed.

Lemma updateTask_nothing_differs epicNumber line m taskIssue taskIsTruth w :
  taskExpression_exec line = Some m ->
  number_ne (number m) (issue_number taskIssue) = false ->
  epicIssueClosed m = taskIssueClosed taskIssue ->
  title m = issue_title taskIssue ->
  updateTask epicNumber line taskIssue taskIsTruth w = (UpdateNull, w).
Proof.
  intros Hm Hn Hc Ht. unfold updateTask. rewrite Hm, Hn.
  unfold updateState, updateTitle. rewrite Hc, Ht, Bool.eqb_reflx.
  rewrite bool_decide_eq_true_2 by reflexivity. reflexivity.
Qed.


(** C2 (amended).  Let the number on the line be the task's, let state or
    title differ, and let the numbers of the task and of the Epic be below
    2^53.  With the Epic as truth [updateTask] behaves as follows, where the
    rebuilt line is made of the indent, status and number of the given line
    and the title of the task record.  When the states agree it makes no
    call and returns the rebuilt line, whatever the repository holds.  When
    the states differ and both calls go through, it first sets the task's
    state to that of the line, then posts a comment on the task, and
    returns the rebuilt line.  When the states differ and one of the two
    calls throws, it calls [core.setFailed] and returns [false], no line.
    The rebuilt line is the given line when the titles are equal and the
    given line is one that rendering its parse reproduces. *)
Theorem C2_epic_truth_line_and_task_calls epicNumber line m taskIssue w :
  taskExpression_exec line = Some m ->
  number_ne (number m) (issue_number taskIssue) = false ->
  updateState m taskIssue || updateTitle m taskIssue = true ->
  safe_integer (issue_number taskIssue) ->
  safe_integer epicNumber ->
  let newLine :=
    renderLine (pre m) (epicIssueClosed m) (issue_number taskIssue)
      (issue_title taskIssue) in
  (updateState m taskIssue = false ->
   exists comment,
     updateTask epicNumber line taskIssue false w
     = (UpdateObject newLine comment, w))
  /\ (updateState m taskIssue = true ->
      fails w (attempts w) = false ->
      fails w (S (attempts w)) = false ->
      is_Some (issues w !! issue_number taskIssue) ->
      exists comment w',
        updateTask epicNumber line taskIssue false w
        = (UpdateObject newLine comment, w')
        /\ calls w' = calls w ++
             [IssuesUpdateState (issue_number taskIssue)
                (closed_word (epicIssueClosed m));
              IssuesCreateComment (issue_number taskIssue)
                (js "`EpicBot` "
                 ++ (if epicIssueClosed m then js "closed" else js "re-opened")
                 ++ js " this issue following changes in Epic #"
                 ++ toString epicNumber ++ js ".")])
  /\ (updateState m taskIssue = true ->
      fails w (attempts w) = true
      \/ issues w !! issue_number taskIssue = None
      \/ fails w (S (attempts w)) = true ->
      exists w',
        updateTask epicNumber line taskIssue false w = (UpdateFalse, w')
        /\ setFailed w' = S (setFailed w))
  /\ (title m = issue_title taskIssue -> render_parse line = Some line ->
      newLine = line).
Proof.
  intros Hm Hn Hd _ _ newLine. unfold updateTask. rewrite Hm, Hn.
  assert (Hnull : negb (updateTitle m taskIssue) && negb (updateState m taskIssue)
                  = false).
  { destruct (updateState m taskIssue), (updateTitle m taskIssue);
      simpl in *; congruence. }
  rewrite Hnull.
  assert (Hsame : title m = issue_title taskIssue ->
                  render_parse line = Some line -> newLine = line).
  { intros Ht Hr. unfold render_parse in Hr. rewrite Hm in Hr.
    apply number_ne_false in Hn as [_ Hp]. rewrite Hp, Ht in Hr.
    injection Hr as Hr. exact Hr. }
  destruct (updateState m taskIssue) eqn:Hst.
  - split; [discriminate|]. split; [|split; [|exact Hsame]].
    + intros _ Hf0 Hf1 [s Hs].
      unfold bind, octokit_issues_update_state, octokit_issues_createComment,
        throws. rewrite Hf0, Hs. cbn. rewrite Hf1, lookup_insert_eq. cbn.
      eexists _, _. split; [reflexivity|]. cbn.
      rewrite <- app_assoc. reflexivity.
    + intros _ Hfail.
      unfold bind, octokit_issues_update_state, octokit_issues_createComment,
        throws.
      destruct (fails w (attempts w)) eqn:Hf0.
      { cbn. eexists. split; reflexivity. }
      destruct (issues w !! issue_number taskIssue) as [s|] eqn:Hs.
      2:{ cbn. eexists. split; reflexivity. }
      destruct (fails w (S (attempts w))) eqn:Hf1.
      2:{ destruct Hfail as [Hfail|[Hfail|Hfail]]; discriminate. }
      cbn. rewrite Hf1. cbn. eexists. split; reflexivity.
  - split; [|split; [discriminate|split; [discriminate | exact Hsame]]].
    intros _. eexists. reflexivity.
Qed.

(** C6.  For the line [- [ ] #42 Old title] and the task record number 42,
    title [New title], state [closed], [updateTask] with the task as truth
    returns the line [- [x] #42 New title] and one comment that reports both
    the refreshed title and the new status; it makes no call. *)
Theorem C6_task_truth_scenario (epicNumber : N) (w : World) :
  updateTask epicNumber (js "- [ ] #42 Old title")
    (mkIssue 42 (js "New title") (js "closed") []) true w
  = (UpdateObject (js "- [x] #42 New title")
       (Some (js "`EpicBot` refreshed the title for task #42 and marked it as `closed`.")),
     w).
Proof. vm_compute. reflexivity. Qed.

(** ** The workload section and [closeEpicIfComplete] *)

Lemma checklist_from_cons inWorkload i line rest :
  checklist_from inWorkload i (line :: rest) =
  if startsWith line (js "#") && endsWith line tasksMarker
  then checklist_from true (S i) rest
  else if startsWith line (js "#") && inWorkload then []
  else if inWorkload then
    match taskExpression_exec line with
    | Some m => (i, m) :: checklist_from inWorkload (S i) rest
    | None => checklist_from inWorkload (S i) rest
    end
  else checklist_from inWorkload (S i) rest.
Proof.
  unfold checklist_from. cbn [workload_from].
  destruct (startsWith line (js "#") && endsWith line tasksMarker);
    [reflexivity|].
  destruct (startsWith line (js "#") && inWorkload); [reflexivity|].
  destruct inWorkload; [|reflexivity].
  cbn [omap list_omap fst snd]. destruct (taskExpression_exec line); reflexivity.
Qed.

(** The scan of [closeEpicIfComplete] against the checklist: it gives up at
    the first line that is not closed, and otherwise counts the lines. *)
Lemma closeEpic_scan_checklist body : forall inWorkload i nTasks,
  closeEpic_scan inWorkload nTasks body =
  if forallb (fun im => epicIssueClosed im.2) (checklist_from inWorkload i body)
  then Some (nTasks + N.of_nat (length (checklist_from inWorkload i body)))
  else None.
Proof.
  induction body as [|line rest IH]; intros inWorkload i nTasks.
  - cbn. rewrite N.add_0_r. reflexivity.
  - rewrite checklist_from_cons. cbn [closeEpic_scan].
    destruct (startsWith line (js "#")), (endsWith line tasksMarker),
      inWorkload; cbn [andb negb];
      try (apply IH);
      try (cbn; rewrite N.add_0_r; reflexivity).
    all: destruct (taskExpression_exec line) as [m|]; try (apply IH).
    all: cbn [forallb snd length]; destruct (epicIssueClosed m);
      cbn [negb andb]; [|reflexivity].
    all: rewrite (IH true (S i) (nTasks + 1)).
    all: destruct (forallb _ _); [|reflexivity].
    all: f_equal; lia.
Qed.

Lemma epicIsComplete_checklist epicBody :
  epicIsComplete epicBody = true <->
  checklist epicBody <> []
  /\ Forall (fun im => closed im.2 = js "x") (checklist epicBody).
Proof.
  unfold epicIsComplete, checklist.
  rewrite (closeEpic_scan_checklist _ false 0%nat 0).
  set (l := checklist_from false 0%nat (split_lines epicBody)).
  rewrite N.add_0_l.
  assert (Hall : forallb (fun im : nat * Match => epicIssueClosed im.2) l = true
                 <-> Forall (fun im => closed im.2 = js "x") l).
  { rewrite forallb_forall, Forall_forall. unfold epicIssueClosed.
    split; intros H x Hx.
    - apply list_elem_of_In, H in Hx. apply bool_decide_eq_true_1 in Hx. exact Hx.
    - apply bool_decide_eq_true_2, H, list_elem_of_In, Hx. }
  destruct (forallb _ l) eqn:Hf.
  - rewrite negb_true_iff, N.eqb_neq. split.
    + intros Hn. split; [|apply Hall; reflexivity].
      intros ->. apply Hn. reflexivity.
    + intros [Hne _]. destruct l; [congruence|]. cbn [length]. lia.
  - split; [discriminate|]. intros [_ H]. apply Hall in H. discriminate.
Qed.

(** The verdict of [closeEpicIfComplete] in terms of the lines its own
    scan offers and its own expression matches, anywhere in the line: it is
    [true] exactly when there is at least one such line and each has the
    status [x].  On a [false] verdict the function returns [false] and
    makes no call; on a [true] verdict, when no call throws, it comments on
    the Epic, closes it and returns [true]. *)
Lemma closeEpicIfComplete_verdict epicBody :
  (epicIsComplete epicBody = true <->
   checklist epicBody <> []
   /\ Forall (fun im => closed im.2 = js "x") (checklist epicBody))
  /\ (checklist epicBody = [] -> epicIsComplete epicBody = false)
  /\ (Exists (fun im => closed im.2 <> js "x") (checklist epicBody) ->
      epicIsComplete epicBody = false)
  /\ (forall epicNumber w,
        epicIsComplete epicBody = false ->
        closeEpicIfComplete epicNumber epicBody w = (false, w))
  /\ (forall epicNumber w,
        epicIsComplete epicBody = true ->
        nofail w ->
        is_Some (issues w !! epicNumber) ->
        exists w',
          closeEpicIfComplete epicNumber epicBody w = (true, w')
          /\ calls w' =
             calls w ++
             [IssuesCreateComment epicNumber
                (js "`EpicBot` closed this Epic as all tasks are complete.");
              IssuesUpdateState epicNumber (js "closed")]).
Proof.
  pose proof (epicIsComplete_checklist epicBody) as H.
  split; [exact H|]. split; [|split; [|split]].
  - intros He. apply not_true_is_false. intros Hc. apply H in Hc as [Hc _].
    contradiction.
  - intros Hex. apply not_true_is_false. intros Hc. apply H in Hc as [_ Hc].
    apply Exists_exists in Hex as (im & Him & Hopen).
    rewrite Forall_forall in Hc. apply Hopen, Hc, Him.
  - intros epicNumber w Hc. unfold closeEpicIfComplete. rewrite Hc. reflexivity.
  - intros epicNumber w Hc Hnf [s Hs]. unfold closeEpicIfComplete, bind.
    rewrite Hc. cbn [negb]. rewrite createComment_nofail by exact Hnf.
    rewrite Hs. cbn [negb].
    rewrite update_state_nofail by (apply nofail_went_through, Hnf).
    cbn [issues went_through]. rewrite Hs. cbn [negb ret].
    eexists. split; [reflexivity|]. cbn [calls went_through].
    rewrite <- app_assoc. reflexivity.
Qed.

(** ** [updateTaskInEpic] *)





(** ** The Epic-driven pass, line by line *)

Lemma updateEpic_loop_cons epicNumber inWorkload line rest w :
  updateEpic_loop epicNumber inWorkload (line :: rest) w =
  let continue inW l :=
    (l' <- updateEpic_loop epicNumber inW rest ;; ret (keep_line l l')) w in
  if startsWith line (js "#") && endsWith line tasksMarker
  then continue true line
  else if startsWith line (js "#") && inWorkload
       then (LoopEnds (line :: rest), w)
  else if inWorkload then
    match taskExpression_exec line with
    | Some m =>
        (r <- updateEpic_line epicNumber line m ;;
         match r with
         | None => ret (LoopReturns ReturnsFalse)
         | Some line' =>
             l' <- updateEpic_loop epicNumber inWorkload rest ;;
             ret (keep_line line' l')
         end) w
    | None => continue inWorkload line
    end
  else continue inWorkload line.
Proof.
  cbn [updateEpic_loop].
  destruct (startsWith line (js "#")), (endsWith line tasksMarker),
    inWorkload; cbn [andb negb]; try reflexivity.
  all: destruct (taskExpression_exec line) as [m|]; [|reflexivity].
  all: unfold updateEpic_line, bind.
  all: destruct (octokit_issues_get _ w) as [[t|] w1]; [|reflexivity].
  all: destruct (updateTask _ _ _ _ w1) as [[| |newLine comment] w2];
    try reflexivity.
  all: destruct (comment_truthy comment); [|reflexivity].
  all: destruct (octokit_issues_createComment _ _ w2) as [[|] w3]; reflexivity.
Qed.

(** *** One checklist line of the pass *)




(** *** The loop *)

Lemma keep_line_ends line l out :
  keep_line line l = LoopEnds out ->
  exists out', l = LoopEnds out' /\ out = line :: out'.
Proof.
  destruct l as [r|out']; cbn; [discriminate|].
  intros [= <-]. exists out'. split; reflexivity.
Qed.

Lemma in_sync_lookup store store' m :
  store' !! parseInt (number m) = store !! parseInt (number m) ->
  in_sync store m -> in_sync store' m.
Proof. intros Heq (s & Hs & H). exists s. rewrite Heq. split; assumption. Qed.




(** *** The whole pass *)




(** * Further properties of the action *)

(** ** What a match says about the line *)

Lemma span_snd_head (f : N -> bool) s : head (f <$> (span f s).2) <> Some true.
Proof.
  induction s as [|c s IH]; cbn; [discriminate|].
  destruct (f c) eqn:Hc.
  - destruct (span f s). exact IH.
  - cbn. rewrite Hc. discriminate.
Qed.

Lemma match_here_sound s m :
  match_here s = Some m ->
  exists sp rest,
    s = pre m ++ js "- [" ++ closed m ++ js "] #" ++ number m ++ sp
        ++ title m ++ rest
    /\ (exists c, closed m = [c] /\ is_line_terminator c = false)
    /\ Forall (fun c => c = SPACE) sp
    /\ (rest = [] \/ exists c r, rest = c :: r /\ is_line_terminator c = true).
Proof.
  unfold match_here.
  pose proof (span_app_eq is_space s) as Hs.
  destruct (span is_space s) as [p r1]. cbn [fst snd] in Hs.
  destruct (literal (js "- [") r1) as [[|c r3]|] eqn:Hl1; try discriminate.
  apply literal_Some in Hl1.
  destruct (is_line_terminator c) eqn:Hc; [discriminate|].
  destruct (literal (js "] #") r3) as [r4|] eqn:Hl2; [|discriminate].
  apply literal_Some in Hl2.
  pose proof (span_app_eq is_digit r4) as Hd.
  destruct (span is_digit r4) as [num r5]. cbn [fst snd] in Hd.
  destruct num as [|d ds]; [discriminate|].
  pose proof (span_app_eq is_space r5) as Hsp.
  pose proof (span_fst_Forall is_space r5) as Hspf.
  destruct (span is_space r5) as [sp r6]. cbn [fst snd] in Hsp, Hspf.
  pose proof (span_app_eq (fun c => negb (is_line_terminator c)) r6) as Ht.
  pose proof (span_snd_head (fun c => negb (is_line_terminator c)) r6) as Hr.
  destruct (span (fun c => negb (is_line_terminator c)) r6) as [t rest].
  cbn [fst snd] in Ht, Hr.
  intros [= <-]. cbn [pre closed number title].
  exists sp, rest. split.
  { rewrite <- Hs, Hl1. f_equal. f_equal. change (c :: r3) with ([c] ++ r3).
    f_equal. rewrite Hl2. f_equal. rewrite <- Hd, <- Hsp, <- Ht.
    reflexivity. }
  split; [exists c; split; [reflexivity | exact Hc]|].
  split.
  { eapply Forall_impl; [exact Hspf|]. intros c0 H0. apply N.eqb_eq, H0. }
  destruct rest as [|c0 r]; [left; reflexivity|]. right. exists c0, r.
  split; [reflexivity|]. cbn in Hr.
  destruct (is_line_terminator c0); [reflexivity|]. cbn in Hr. congruence.
Qed.

(** X1.  Whatever the task expression matches is in the line as it
    stands: some text, then the spaces of [pre], the dash and the bracketed
    status character, the hash and the digits of [number], spaces, the
    title, and after the title either nothing or a line terminator.  The
    captures have their shapes: [pre] is spaces, [closed] one character
    that is no line terminator, [number] one digit or more, and the title
    neither begins with a space nor holds a line terminator. *)
Theorem X1_match_is_literally_in_the_line line m :
  taskExpression_exec line = Some m ->
  exists before sp rest,
    line = before ++ pre m ++ js "- [" ++ closed m ++ js "] #" ++ number m
           ++ sp ++ title m ++ rest
    /\ Forall (fun c => c = SPACE) (pre m)
    /\ (exists c, closed m = [c] /\ is_line_terminator c = false)
    /\ number m <> []
    /\ Forall (fun c => is_digit c = true) (number m)
    /\ Forall (fun c => c = SPACE) sp
    /\ plain_title (title m)
    /\ (rest = [] \/ exists c r, rest = c :: r /\ is_line_terminator c = true).
Proof.
  intros H. pose proof (exec_inv line m H) as (Hp & Hd & Hn & Ht).
  assert (Hs : exists before s, line = before ++ s /\ match_here s = Some m).
  { clear Hp Hd Hn Ht. induction line as [|c line IH]; cbn [taskExpression_exec] in H.
    - destruct (match_here []) eqn:Hm; [|discriminate].
      injection H as ->. exists [], []. split; [reflexivity | exact Hm].
    - destruct (match_here (c :: line)) eqn:Hm.
      + injection H as ->. exists [], (c :: line). split; [reflexivity | exact Hm].
      + destruct (IH H) as (before & s & -> & Hs).
        exists (c :: before), s. split; [reflexivity | exact Hs]. }
  destruct Hs as (before & s & -> & Hs).
  apply match_here_sound in Hs as (sp & rest & -> & Hc & Hsp & Hrest).
  exists before, sp, rest. repeat (split; [assumption || reflexivity|]).
  exact Hrest.
Qed.

(** ** Line endings *)

(** X2.  Splitting a body, joining the lines with CR LF and splitting
    again gives the same lines; the lines hold no line feed and there is
    always at least one.  So the checklist and the verdict of
    [closeEpicIfComplete] are the same for a body and for the body a pass
    persists from its lines. *)
Theorem X2_joined_lines_split_back epicBody :
  split_lines (join CRLF (split_lines epicBody)) = split_lines epicBody
  /\ Forall (fun l => LF ∉ l) (split_lines epicBody)
  /\ split_lines epicBody <> []
  /\ checklist (join CRLF (split_lines epicBody)) = checklist epicBody
  /\ epicIsComplete (join CRLF (split_lines epicBody)) = epicIsComplete epicBody.
Proof.
  assert (H : split_lines (join CRLF (split_lines epicBody)) = split_lines epicBody).
  { apply split_lines_join; [apply split_lines_nonempty | apply split_lines_no_LF]. }
  split; [exact H|]. split; [apply split_lines_no_LF|].
  split; [apply split_lines_nonempty|].
  unfold checklist, epicIsComplete. rewrite H. split; reflexivity.
Qed.

(** ** The task as truth *)

(** What [updateTask] returns with the task as truth. *)
Lemma updateTask_task_truth_inv epicNumber line taskIssue w r w' :
  updateTask epicNumber line taskIssue true w = (r, w') ->
  w' = w
  /\ (r = UpdateNull
      \/ exists m comment,
           taskExpression_exec line = Some m
           /\ number_ne (number m) (issue_number taskIssue) = false
           /\ comment_truthy comment = true
           /\ r = UpdateObject
                    (renderLine (pre m) (taskIssueClosed taskIssue)
                       (issue_number taskIssue) (issue_title taskIssue))
                    comment).
Proof.
  unfold updateTask.
  destruct (taskExpression_exec line) as [m|] eqn:Hm.
  2:{ intros [= <- <-]. split; [reflexivity | left; reflexivity]. }
  destruct (number_ne (number m) (issue_number taskIssue)) eqn:Hn.
  { intros [= <- <-]. split; [reflexivity | left; reflexivity]. }
  destruct (updateTitle m taskIssue), (updateState m taskIssue);
    cbn [negb andb]; intros [= <- <-]; (split; [reflexivity|]);
    try (left; reflexivity).
  all: right; eexists m, _; split; [reflexivity|]; split; [exact Hn|];
    split; [|reflexivity]; reflexivity.
Qed.

(** X3.  With the task as truth [updateTask] is a computation on its
    arguments alone: it makes no call and leaves the world as it was, it
    never returns [false], and every line it returns comes with a comment
    that will be posted. *)
Theorem X3_task_truth_makes_no_call epicNumber line taskIssue w :
  exists r,
    updateTask epicNumber line taskIssue true w = (r, w)
    /\ r <> UpdateFalse
    /\ (forall newLine comment,
          r = UpdateObject newLine comment -> comment_truthy comment = true).
Proof.
  destruct (updateTask epicNumber line taskIssue true w) as [r w'] eqn:H.
  apply updateTask_task_truth_inv in H as [-> Hr].
  exists r. split; [reflexivity|].
  destruct Hr as [->|(m & c & _ & _ & Hc & ->)].
  - split; [discriminate|]. discriminate.
  - split; [discriminate|]. intros nl c' [= _ <-]. exact Hc.
Qed.

Lemma updateTask_on_rendered epicNumber p taskIssue w :
  Forall (fun c => c = SPACE) p ->
  plain_title (issue_title taskIssue) ->
  updateTask epicNumber
    (renderLine p (taskIssueClosed taskIssue) (issue_number taskIssue)
       (issue_title taskIssue))
    taskIssue true w
  = (UpdateNull, w).
Proof.
  intros Hp Ht. eapply updateTask_nothing_differs.
  - apply exec_renderLine; assumption.
  - cbn [number]. rewrite number_ne_toString, N.eqb_refl. reflexivity.
  - apply epicIssueClosed_status.
  - reflexivity.
Qed.

(** X4.  With the task as truth a line that [updateTask] has rebuilt is
    up to date: given the rebuilt line and the same task, [updateTask]
    returns [null], provided the task's title neither begins with a space
    nor holds a line terminator. *)
Theorem X4_task_truth_rebuilt_line_is_up_to_date
    epicNumber line taskIssue w newLine comment w' :
  plain_title (issue_title taskIssue) ->
  updateTask epicNumber line taskIssue true w = (UpdateObject newLine comment, w') ->
  updateTask epicNumber newLine taskIssue true w' = (UpdateNull, w').
Proof.
  intros Ht H. apply updateTask_task_truth_inv in H as [-> Hr].
  destruct Hr as [Hr|(m & c & Hm & _ & _ & Hr)]; [discriminate|].
  injection Hr as -> _. apply updateTask_on_rendered; [|exact Ht].
  apply (exec_inv line m Hm).
Qed.

(** ** [updateTaskInEpic], once more *)

Lemma updateTaskInEpic_loop_pure epicNumber taskIssue body rest :
  forall inWorkload i w,
  exists r,
    updateTaskInEpic_loop epicNumber taskIssue body inWorkload i rest w = (r, w).
Proof.
  induction rest as [|line rest' IH]; intros inWorkload i w.
  - eexists. reflexivity.
  - cbn [updateTaskInEpic_loop].
    destruct (startsWith line (js "#")), (endsWith line tasksMarker),
      inWorkload; cbn [negb]; try apply IH; try (eexists; reflexivity).
    all: destruct (taskExpression_exec line) as [m|]; [|apply IH].
    all: destruct (number_ne (number m) (issue_number taskIssue)); [apply IH|].
    all: unfold bind;
      destruct (updateTask epicNumber line taskIssue true w) as [r w'] eqn:H;
      apply updateTask_task_truth_inv in H as [-> _];
      destruct r; eexists; reflexivity.
Qed.

(** X5.  [updateTaskInEpic] makes no call: whatever the body, the task and
    the result, the world is after it what it was before. *)
Theorem X5_updateTaskInEpic_makes_no_call epicNumber epicBody taskIssue w :
  (updateTaskInEpic epicNumber epicBody taskIssue w).2 = w.
Proof.
  unfold updateTaskInEpic.
  destruct (updateTaskInEpic_loop_pure epicNumber taskIssue
              (split_lines epicBody) (split_lines epicBody) false 0%nat w)
    as [r ->].
  reflexivity.
Qed.

Lemma updateTaskInEpic_loop_cons epicNumber taskIssue body inWorkload i line rest w :
  updateTaskInEpic_loop epicNumber taskIssue body inWorkload i (line :: rest) w =
  if startsWith line (js "#") && endsWith line tasksMarker
  then updateTaskInEpic_loop epicNumber taskIssue body true (S i) rest w
  else if startsWith line (js "#") && inWorkload then (EpicNull, w)
  else if inWorkload then
    match taskExpression_exec line with
    | Some m =>
        if number_ne (number m) (issue_number taskIssue)
        then updateTaskInEpic_loop epicNumber taskIssue body inWorkload (S i) rest w
        else
          (result <- updateTask epicNumber line taskIssue true ;;
           match result with
           | UpdateNull | UpdateFalse => ret EpicNull
           | UpdateObject newLine comment =>
               ret (EpicObject (join CRLF (<[i := newLine]> body)) comment)
           end) w
    | None => updateTaskInEpic_loop epicNumber taskIssue body inWorkload (S i) rest w
    end
  else updateTaskInEpic_loop epicNumber taskIssue body inWorkload (S i) rest w.
Proof.
  cbn [updateTaskInEpic_loop].
  destruct (startsWith line (js "#")), (endsWith line tasksMarker),
    inWorkload; cbn [andb negb]; try reflexivity.
  all: destruct (taskExpression_exec line) as [m|]; [|reflexivity].
  all: destruct (number_ne (number m) (issue_number taskIssue)); reflexivity.
Qed.

(** Where the loop of [updateTaskInEpic] returned a body, it returns
    [null] once the line it wrote is in place. *)
Lemma updateTaskInEpic_loop_idempotent epicNumber taskIssue body rest :
  plain_title (issue_title taskIssue) ->
  forall inWorkload i w newBody comment w',
  updateTaskInEpic_loop epicNumber taskIssue body inWorkload i rest w
  = (EpicObject newBody comment, w') ->
  exists k newLine,
    newBody = join CRLF (<[(i + k)%nat := newLine]> body)
    /\ (LF ∉ newLine)
    /\ forall body2 w2,
         updateTaskInEpic_loop epicNumber taskIssue body2 inWorkload i
           (<[k := newLine]> rest) w2
         = (EpicNull, w2).
Proof.
  intros Ht. induction rest as [|line rest' IH];
    intros inWorkload i w newBody comment w' H.
  - discriminate.
  - rewrite updateTaskInEpic_loop_cons in H.
    assert (Hcont : forall inW,
      updateTaskInEpic_loop epicNumber taskIssue body inW (S i) rest' w
      = (EpicObject newBody comment, w') ->
      exists k newLine,
        newBody = join CRLF (<[(i + S k)%nat := newLine]> body)
        /\ (LF ∉ newLine)
        /\ forall body2 w2,
             updateTaskInEpic_loop epicNumber taskIssue body2 inW (S i)
               (<[k := newLine]> rest') w2
             = (EpicNull, w2)).
    { intros inW Hrun. destruct (IH _ _ _ _ _ _ Hrun) as (k & nl & Hb & Hlf & Hk).
      exists k, nl. rewrite Nat.add_succ_r. split; [exact Hb|].
      split; [exact Hlf | exact Hk]. }
    destruct (startsWith line (js "#") && endsWith line tasksMarker) eqn:Hmark.
    { apply Hcont in H as (k & nl & Hb & Hlf & Hk). exists (S k), nl.
      split; [exact Hb|]. split; [exact Hlf|]. intros body2 w2.
      change (<[S k := nl]> (line :: rest')) with (line :: <[k := nl]> rest').
        rewrite updateTaskInEpic_loop_cons, Hmark. apply Hk. }
    destruct (startsWith line (js "#") && inWorkload) eqn:Hbreak; [discriminate|].
    destruct inWorkload.
    2:{ apply Hcont in H as (k & nl & Hb & Hlf & Hk). exists (S k), nl.
        split; [exact Hb|]. split; [exact Hlf|]. intros body2 w2.
        change (<[S k := nl]> (line :: rest')) with (line :: <[k := nl]> rest').
        rewrite updateTaskInEpic_loop_cons, Hmark, Hbreak.
        apply Hk. }
    destruct (taskExpression_exec line) as [m|] eqn:Hm.
    2:{ apply Hcont in H as (k & nl & Hb & Hlf & Hk). exists (S k), nl.
        split; [exact Hb|]. split; [exact Hlf|]. intros body2 w2.
        change (<[S k := nl]> (line :: rest')) with (line :: <[k := nl]> rest').
        rewrite updateTaskInEpic_loop_cons, Hmark, Hbreak, Hm.
        apply Hk. }
    destruct (number_ne (number m) (issue_number taskIssue)) eqn:Hn.
    { apply Hcont in H as (k & nl & Hb & Hlf & Hk). exists (S k), nl.
      split; [exact Hb|]. split; [exact Hlf|]. intros body2 w2.
      change (<[S k := nl]> (line :: rest')) with (line :: <[k := nl]> rest').
        rewrite updateTaskInEpic_loop_cons, Hmark, Hbreak, Hm, Hn.
      apply Hk. }
    unfold bind in H.
    destruct (updateTask epicNumber line taskIssue true w) as [r w1] eqn:Hr.
    apply updateTask_task_truth_inv in Hr as [-> Hr].
    destruct Hr as [->|(m' & c & Hm' & _ & _ & ->)]; [discriminate|].
    injection H as <- _ _. rewrite Hm in Hm'. injection Hm' as <-.
    pose proof (exec_inv line m Hm) as (Hpre & _).
    exists 0%nat. eexists. rewrite Nat.add_0_r. split; [reflexivity|].
    split; [apply renderLine_no_LF; assumption|].
    intros body2 w2.
    match goal with
    | |- context [<[0%nat := ?x]> (line :: rest')] =>
        change (<[0%nat := x]> (line :: rest')) with (x :: rest')
    end.
    rewrite updateTaskInEpic_loop_cons.
    rewrite startsWith_renderLine by exact Hpre. cbn [andb].
    rewrite exec_renderLine by assumption. cbn [number].
    rewrite number_ne_toString, N.eqb_refl. cbn [negb].
    unfold bind. rewrite updateTask_on_rendered by assumption. reflexivity.
Qed.

(** X6.  [updateTaskInEpic] settles in one step: given the body it has
    returned and the same task, it returns [null]; nothing is left to
    update.  The task's title is to neither begin with a space nor hold a
    line terminator. *)
Theorem X6_updateTaskInEpic_returned_body_is_up_to_date
    epicNumber epicBody taskIssue w newBody comment w' :
  plain_title (issue_title taskIssue) ->
  updateTaskInEpic epicNumber epicBody taskIssue w
  = (EpicObject newBody comment, w') ->
  updateTaskInEpic epicNumber newBody taskIssue w' = (EpicNull, w').
Proof.
  intros Ht H. unfold updateTaskInEpic in H.
  apply (updateTaskInEpic_loop_idempotent _ _ _ _ Ht) in H
    as (k & nl & -> & Hlf & Hk).
  cbn [Nat.add] in *. unfold updateTaskInEpic.
  rewrite split_lines_join.
  - apply Hk.
  - intros Hnil. apply (split_lines_nonempty epicBody).
    apply length_zero_iff_nil. rewrite <- (length_insert (split_lines epicBody) k nl).
    rewrite Hnil. reflexivity.
  - pose proof (split_lines_no_LF epicBody) as Hall.
    rewrite Forall_forall in Hall |- *. intros l Hl.
    apply list_elem_of_lookup in Hl as [j Hj].
    destruct (decide (j = k)) as [->|Hne].
    + destruct (decide (k < length (split_lines epicBody))%nat) as [Hlt|Hge].
      * rewrite list_lookup_insert_eq in Hj by exact Hlt. injection Hj as <-.
        exact Hlf.
      * rewrite list_insert_ge in Hj by lia. apply Hall.
        apply list_elem_of_lookup. eauto.
    + rewrite list_lookup_insert_ne in Hj by congruence. apply Hall.
      apply list_elem_of_lookup. eauto.
Qed.

(** ** A body without the workload heading *)



(** How the two functions that split a body end on a body that is a
    text, and on [null]. *)
Lemma updateEpic_delivered_text epicIssue epicBody w :
  payload_body epicIssue = Some epicBody ->
  updateEpic_delivered epicIssue w
  = (Fulfilled (updateEpic (with_body epicIssue epicBody) w).1,
     (updateEpic (with_body epicIssue epicBody) w).2).
Proof.
  intros H. unfold updateEpic_delivered. rewrite H. unfold bind.
  destruct (updateEpic _ w). reflexivity.
Qed.



(** ** Call logs under any schedule *)

Lemma steps_refl P w : steps P w w.
Proof.
  split; [exists []; split; [symmetry; apply app_nil_r | constructor]|].
  split; [lia|]. split; [reflexivity|]. split; reflexivity.
Qed.

Lemma steps_trans P w1 w2 w3 : steps P w1 w2 -> steps P w2 w3 -> steps P w1 w3.
Proof.
  intros ((cs1 & Hc1 & Hp1) & Hs1 & Hd1 & Hf1 & Ht1)
         ((cs2 & Hc2 & Hp2) & Hs2 & Hd2 & Hf2 & Ht2).
  split.
  { exists (cs1 ++ cs2). rewrite Hc2, Hc1, app_assoc.
    split; [reflexivity | apply Forall_app; split; assumption]. }
  split; [lia|]. split; [intros n; rewrite Hd2; apply Hd1|].
  split; congruence.
Qed.

Lemma steps_attempt P w : steps P w (attempt w).
Proof.
  split; [exists []; split; [symmetry; apply app_nil_r | constructor]|].
  split; [cbn; lia|]. split; [reflexivity|]. split; reflexivity.
Qed.

Lemma steps_setFailed P w : steps P w (core_setFailed w).2
                            /\ (setFailed w < setFailed (core_setFailed w).2)%nat.
Proof.
  split; [|cbn; lia].
  split; [exists []; split; [symmetry; apply app_nil_r | constructor]|].
  split; [cbn; lia|]. split; [reflexivity|]. split; reflexivity.
Qed.

Lemma steps_went_through (P : Call -> Prop) c store w :
  P c ->
  (forall n, store !! n = None <-> issues w !! n = None) ->
  steps P w (went_through c store w).
Proof.
  intros Hc Hd. split; [exists [c]; split; [reflexivity | repeat constructor; exact Hc]|].
  split; [cbn; lia|]. split; [exact Hd|]. split; reflexivity.
Qed.

Lemma insert_present_None (store : gmap N Stored) n s s' k :
  store !! n = Some s -> (<[n := s']> store !! k = None <-> store !! k = None).
Proof.
  intros Hs. destruct (decide (n = k)) as [<-|Hne].
  - rewrite lookup_insert_eq, Hs. split; discriminate.
  - rewrite lookup_insert_ne by exact Hne. reflexivity.
Qed.

Lemma get_steps (P : Call -> Prop) n w r w' :
  octokit_issues_get n w = (r, w') -> P (IssuesGet n) ->
  steps P w w'
  /\ (forall t, r = Some t -> issue_number t = n)
  /\ (issues w !! n = None -> r = None).
Proof.
  unfold octokit_issues_get. intros H Hp.
  destruct (throws w).
  { injection H as <- <-. split; [apply steps_attempt|]. split; [discriminate|].
    reflexivity. }
  destruct (issues w !! n) as [s|] eqn:Hs; injection H as <- <-.
  - split; [apply steps_went_through; [exact Hp | reflexivity]|].
    split; [intros t [= <-]; reflexivity | discriminate].
  - split; [apply steps_attempt|]. split; [discriminate | reflexivity].
Qed.

Lemma createComment_steps (P : Call -> Prop) n b w r w' :
  octokit_issues_createComment n b w = (r, w') -> P (IssuesCreateComment n b) ->
  steps P w w'.
Proof.
  unfold octokit_issues_createComment. intros H Hp.
  destruct (throws w); [injection H as <- <-; apply steps_attempt|].
  destruct (issues w !! n) as [s|] eqn:Hs; injection H as <- <-.
  - apply steps_went_through; [exact Hp | reflexivity].
  - apply steps_attempt.
Qed.

Lemma update_state_steps (P : Call -> Prop) n st w r w' :
  octokit_issues_update_state n st w = (r, w') -> P (IssuesUpdateState n st) ->
  steps P w w'.
Proof.
  unfold octokit_issues_update_state. intros H Hp.
  destruct (throws w); [injection H as <- <-; apply steps_attempt|].
  destruct (issues w !! n) as [s|] eqn:Hs; injection H as <- <-.
  - apply steps_went_through; [exact Hp|]. intros k.
    eapply insert_present_None, Hs.
  - apply steps_attempt.
Qed.


Lemma setFailed_ret_steps {A} (P : Call -> Prop) (a : A) w r w' :
  (core_setFailed ;;; ret a) w = (r, w') ->
  r = a /\ steps P w w' /\ (setFailed w < setFailed w')%nat.
Proof.
  unfold bind, ret. cbn. intros [= <- <-]. split; [reflexivity|].
  apply (steps_setFailed P w).
Qed.

(** [updateTask] under any schedule: its calls are about the task, and a
    line it returns is rebuilt from the captures of the given one. *)
Lemma updateTask_steps (P : Call -> Prop) epicNumber line taskIssue truth w r w' :
  updateTask epicNumber line taskIssue truth w = (r, w') ->
  (forall st, P (IssuesUpdateState (issue_number taskIssue) st)) ->
  (forall b, P (IssuesCreateComment (issue_number taskIssue) b)) ->
  steps P w w'
  /\ (forall newLine comment, r = UpdateObject newLine comment ->
      exists m b,
        taskExpression_exec line = Some m
        /\ number_ne (number m) (issue_number taskIssue) = false
        /\ (truth = false -> b = epicIssueClosed m)
        /\ newLine = renderLine (pre m) b (issue_number taskIssue)
                       (issue_title taskIssue)).
Proof.
  intros H Hst Hcm. destruct truth.
  { apply updateTask_task_truth_inv in H as [-> Hr]. split; [apply steps_refl|].
    intros nl c ->. destruct Hr as [Hr|(m & c' & Hm & Hn & _ & Hr)]; [discriminate|].
    injection Hr as -> _. exists m, (taskIssueClosed taskIssue).
    split; [exact Hm|]. split; [exact Hn|]. split; [discriminate | reflexivity]. }
  unfold updateTask in H.
  destruct (taskExpression_exec line) as [m|] eqn:Hm.
  2:{ injection H as <- <-. split; [apply steps_refl | discriminate]. }
  destruct (number_ne (number m) (issue_number taskIssue)) eqn:Hn.
  { injection H as <- <-. split; [apply steps_refl | discriminate]. }
  destruct (negb (updateTitle m taskIssue) && negb (updateState m taskIssue)).
  { injection H as <- <-. split; [apply steps_refl | discriminate]. }
  assert (Hobj : forall c nl c', UpdateObject
      (renderLine (pre m) (epicIssueClosed m) (issue_number taskIssue)
         (issue_title taskIssue)) c = UpdateObject nl c' ->
      exists m0 b,
        Some m = Some m0
        /\ number_ne (number m0) (issue_number taskIssue) = false
        /\ (false = false -> b = epicIssueClosed m0)
        /\ nl = renderLine (pre m0) b (issue_number taskIssue)
                  (issue_title taskIssue)).
  { intros c nl c' [= <- _]. exists m, (epicIssueClosed m).
    repeat (split; [reflexivity || assumption|]). reflexivity. }
  destruct (updateState m taskIssue).
  2:{ injection H as <- <-. split; [apply steps_refl|]. intros nl c. apply Hobj. }
  unfold bind at 1 in H.
  destruct (octokit_issues_update_state _ _ w) as [ok w1] eqn:Hu.
  apply (update_state_steps P) in Hu; [|apply Hst].
  destruct ok; cbn [negb] in H.
  2:{ apply (setFailed_ret_steps P) in H as (-> & Hs & _).
      split; [eapply steps_trans; eassumption | discriminate]. }
  unfold bind at 1 in H.
  destruct (octokit_issues_createComment _ _ w1) as [ok' w2] eqn:Hc.
  apply (createComment_steps P) in Hc; [|apply Hcm].
  destruct ok'; cbn [negb] in H.
  2:{ apply (setFailed_ret_steps P) in H as (-> & Hs & _).
      split; [eapply steps_trans; [|eassumption]; eapply steps_trans; eassumption
             | discriminate]. }
  injection H as <- <-.
  split; [eapply steps_trans; eassumption|]. intros nl c. apply Hobj.
Qed.

(** One checklist line of [updateEpic] under any schedule. *)
Lemma updateEpic_line_steps (P : Call -> Prop) epicNumber line m w r w' :
  updateEpic_line epicNumber line m w = (r, w') ->
  taskExpression_exec line = Some m ->
  (forall c, is_persist c = false -> P c) ->
  steps P w w'
  /\ (r = None -> (setFailed w < setFailed w')%nat)
  /\ (issues w !! parseInt (number m) = None -> r = None)
  /\ (forall line', r = Some line' ->
        line' = line
        \/ exists t, line' = renderLine (pre m) (epicIssueClosed m)
                               (parseInt (number m)) t).
Proof.
  intros H Hm HP. unfold updateEpic_line in H. unfold bind at 1 in H.
  destruct (octokit_issues_get _ w) as [t w1] eqn:Hg.
  apply (get_steps P) in Hg as (Hs1 & Hnum & Hmiss); [|apply HP; reflexivity].
  destruct t as [taskIssue|].
  2:{ apply (setFailed_ret_steps P) in H as (-> & Hs & Hlt).
      split; [eapply steps_trans; eassumption|].
      split; [intros _; destruct Hs1 as (_ & Hle & _); lia|].
      split; [reflexivity | discriminate]. }
  specialize (Hnum _ eq_refl).
  unfold bind at 1 in H.
  destruct (updateTask _ _ _ _ w1) as [res w2] eqn:Hu.
  apply (updateTask_steps P) in Hu as (Hs2 & Hobj);
    [|intros; apply HP; reflexivity ..].
  assert (Hs12 : steps P w w2) by (eapply steps_trans; eassumption).
  assert (Hnone : issues w !! parseInt (number m) = None ->
                  Some taskIssue = None (A:=Issue)) by exact Hmiss.
  destruct res as [| |newLine comment].
  - injection H as <- <-. split; [exact Hs12|]. split; [discriminate|].
    split; [intros Hx; apply Hnone in Hx; discriminate|].
    intros l [= <-]. left. reflexivity.
  - injection H as <- <-. split; [exact Hs12|]. split; [discriminate|].
    split; [intros Hx; apply Hnone in Hx; discriminate|].
    intros l [= <-]. left. reflexivity.
  - destruct (Hobj _ _ eq_refl) as (m' & b & Hm' & _ & Hb & Hnl).
    rewrite Hm in Hm'. injection Hm' as <-.
    rewrite (Hb eq_refl), Hnum in Hnl. subst newLine.
    destruct (comment_truthy comment).
    + unfold bind at 1 in H.
      destruct (octokit_issues_createComment _ _ w2) as [ok w3] eqn:Hc.
      apply (createComment_steps P) in Hc; [|apply HP; reflexivity].
      destruct ok; cbn [negb] in H.
      * injection H as <- <-. split; [eapply steps_trans; eassumption|].
        split; [discriminate|].
        split; [intros Hx; apply Hnone in Hx; discriminate|].
        intros l [= <-]. right. eexists. reflexivity.
      * apply (setFailed_ret_steps P) in H as (-> & Hs & Hlt).
        assert (Hs13 : steps P w w3) by (eapply steps_trans; eassumption).
        split; [eapply steps_trans; eassumption|].
        split; [intros _; destruct Hs13 as (_ & Hle & _); lia|].
        split; [reflexivity | discriminate].
    + injection H as <- <-. split; [exact Hs12|]. split; [discriminate|].
      split; [intros Hx; apply Hnone in Hx; discriminate|].
      intros l [= <-]. right. eexists. reflexivity.
Qed.

(** ** [updateEpic] under any schedule *)

(** What the loop of [updateEpic] does whatever calls throw: it never
    persists a body; it leaves the function only with [false] and after
    [core.setFailed]; it keeps the number of lines and every line but the
    checklist lines of the section, which keep their indent, status and
    number; and it does not get past a line whose task is missing. *)
Lemma updateEpic_loop_any epicNumber body : forall inWorkload i w l w',
  updateEpic_loop epicNumber inWorkload body w = (l, w') ->
  steps (fun c => is_persist c = false) w w'
  /\ (forall r, l = LoopReturns r ->
        r = ReturnsFalse /\ (setFailed w < setFailed w')%nat)
  /\ (forall out, l = LoopEnds out ->
        length out = length body
        /\ forall j line, body !! j = Some line ->
             out !! j = Some line
             \/ exists m t,
                  ((i + j)%nat, m) ∈ checklist_from inWorkload i body
                  /\ out !! j = Some (renderLine (pre m) (epicIssueClosed m)
                                        (parseInt (number m)) t))
  /\ ((exists k m, (k, m) ∈ checklist_from inWorkload i body
                   /\ issues w !! parseInt (number m) = None) ->
      exists r, l = LoopReturns r).
Proof.
  set (NP := fun c => is_persist c = false).
  induction body as [|line rest IH]; intros inWorkload i w l w' H.
  - injection H as <- <-. split; [apply steps_refl|]. split; [discriminate|].
    split.
    + intros out [= <-]. split; [reflexivity|]. intros j line Hj. discriminate.
    + intros (k & m & Hin & _). apply elem_of_nil in Hin. contradiction.
  - rewrite updateEpic_loop_cons in H. cbv zeta in H.
    assert (Hcont : forall inW,
      (l' <- updateEpic_loop epicNumber inW rest ;; ret (keep_line line l')) w
      = (l, w') ->
      checklist_from inWorkload i (line :: rest) = checklist_from inW (S i) rest ->
      steps NP w w'
      /\ (forall r, l = LoopReturns r ->
            r = ReturnsFalse /\ (setFailed w < setFailed w')%nat)
      /\ (forall out, l = LoopEnds out ->
            length out = length (line :: rest)
            /\ forall j line0, (line :: rest) !! j = Some line0 ->
                 out !! j = Some line0
                 \/ exists m t,
                      ((i + j)%nat, m) ∈ checklist_from inWorkload i (line :: rest)
                      /\ out !! j = Some (renderLine (pre m) (epicIssueClosed m)
                                            (parseInt (number m)) t))
      /\ ((exists k m, (k, m) ∈ checklist_from inWorkload i (line :: rest)
                       /\ issues w !! parseInt (number m) = None) ->
          exists r, l = LoopReturns r)).
    { intros inW Hrun Hck. rewrite Hck. unfold bind in Hrun.
      destruct (updateEpic_loop epicNumber inW rest w) as [l0 w0] eqn:Hloop.
      injection Hrun as <- <-.
      destruct (IH _ (S i) _ _ _ Hloop) as (Hs & Hret & Hend & Hmiss).
      split; [exact Hs|]. split; [|split].
      - intros r Hr. destruct l0 as [r0|out0]; [|discriminate].
        injection Hr as <-. apply Hret. reflexivity.
      - intros out Hout. apply keep_line_ends in Hout as (out' & -> & ->).
        destruct (Hend _ eq_refl) as (Hlen & Hfr).
        split; [cbn [length]; congruence|].
        intros [|j] line0 Hj; [left; exact Hj|].
        cbn in Hj. destruct (Hfr j line0 Hj) as [Hsame|(m & t & Hin & Ho)].
        + left. exact Hsame.
        + right. exists m, t. rewrite Nat.add_succ_r. split; assumption.
      - intros Hex. destruct (Hmiss Hex) as [r ->]. exists r. reflexivity. }
    pose proof (checklist_from_cons inWorkload i line rest) as Hck.
    destruct (startsWith line (js "#") && endsWith line tasksMarker).
    { apply (Hcont true H Hck). }
    destruct (startsWith line (js "#") && inWorkload).
    { injection H as <- <-. rewrite Hck. split; [apply steps_refl|].
      split; [discriminate|]. split.
      - intros out [= <-]. split; [reflexivity|]. intros j l0 Hj. left. exact Hj.
      - intros (k & m & Hin & _). apply elem_of_nil in Hin. contradiction. }
    destruct inWorkload; [|apply (Hcont false H Hck)].
    destruct (taskExpression_exec line) as [m|] eqn:Hm; [|apply (Hcont true H Hck)].
    rewrite Hck. unfold bind at 1 in H.
    destruct (updateEpic_line epicNumber line m w) as [r1 w1] eqn:Hstep.
    destruct (updateEpic_line_steps NP _ _ _ _ _ _ Hstep Hm (fun c Hc => Hc))
      as (Hs1 & Hfail & Hmiss1 & Hshape).
    destruct r1 as [line'|].
    2:{ injection H as <- <-. split; [exact Hs1|].
        split; [intros r [= <-]; split; [reflexivity | apply Hfail; reflexivity]|].
        split; [discriminate|]. intros _. eexists. reflexivity. }
    unfold bind in H.
    destruct (updateEpic_loop epicNumber true rest w1) as [l0 w0] eqn:Hloop.
    injection H as <- <-.
    destruct (IH _ (S i) _ _ _ Hloop) as (Hs & Hret & Hend & Hmiss).
    split; [eapply steps_trans; eassumption|]. split; [|split].
    + intros r Hr. destruct l0 as [r0|out0]; [|discriminate].
      injection Hr as <-. destruct (Hret _ eq_refl) as [-> Hlt].
      split; [reflexivity|]. destruct Hs1 as (_ & Hle & _). lia.
    + intros out Hout. apply keep_line_ends in Hout as (out' & -> & ->).
      destruct (Hend _ eq_refl) as (Hlen & Hfr).
      split; [cbn [length]; congruence|].
      intros [|j] line0 Hj.
      * cbn in Hj. injection Hj as <-. rewrite Nat.add_0_r.
        destruct (Hshape _ eq_refl) as [->|[t ->]]; [left; reflexivity|].
        right. exists m, t. split; [apply elem_of_cons; left|]; reflexivity.
      * cbn in Hj. destruct (Hfr j line0 Hj) as [Hsame|(m0 & t & Hin & Ho)].
        -- left. exact Hsame.
        -- right. exists m0, t. rewrite Nat.add_succ_r.
           split; [apply elem_of_cons; right; exact Hin | exact Ho].
    + intros (k & m0 & Hin & Hnone). apply elem_of_cons in Hin as [Heq|Hin].
      * injection Heq as -> ->. apply Hmiss1 in Hnone. discriminate.
      * destruct Hmiss as [r ->]; [|exists r; reflexivity].
        exists k, m0. split; [exact Hin|].
        destruct Hs1 as (_ & _ & Hd & _). apply Hd, Hnone.
Qed.

Lemma update_body_cases n b w ok w' :
  octokit_issues_update_body n b w = (ok, w') ->
  (ok = false /\ w' = attempt w)
  \/ (ok = true
      /\ exists s, issues w !! n = Some s
           /\ w' = went_through (IssuesUpdateBody n b)
                     (<[n := mkStored (stored_title s) (stored_state s) b]> (issues w))
                     w).
Proof.
  unfold octokit_issues_update_body. destruct (throws w).
  { intros [= <- <-]. left. split; reflexivity. }
  destruct (issues w !! n) as [s|]; intros [= <- <-].
  - right. split; [reflexivity|]. exists s. split; reflexivity.
  - left. split; reflexivity.
Qed.

Lemma closeEpicIfComplete_steps (P : Call -> Prop) epicNumber epicBody w r w' :
  closeEpicIfComplete epicNumber epicBody w = (r, w') ->
  (forall b, P (IssuesCreateComment epicNumber b)) ->
  P (IssuesUpdateState epicNumber (js "closed")) ->
  steps P w w'.
Proof.
  intros H Hc Hs. unfold closeEpicIfComplete in H.
  destruct (negb (epicIsComplete epicBody)).
  { injection H as <- <-. apply steps_refl. }
  unfold bind at 1 in H.
  destruct (octokit_issues_createComment _ _ w) as [ok w1] eqn:H1.
  apply (createComment_steps P) in H1; [|apply Hc].
  destruct ok; cbn [negb] in H.
  2:{ apply (setFailed_ret_steps P) in H as (_ & H & _).
      eapply steps_trans; eassumption. }
  unfold bind at 1 in H.
  destruct (octokit_issues_update_state _ _ w1) as [ok' w2] eqn:H2.
  apply (update_state_steps P) in H2; [|exact Hs].
  destruct ok'; cbn [negb] in H.
  - injection H as <- <-. eapply steps_trans; eassumption.
  - apply (setFailed_ret_steps P) in H as (_ & H & _).
    eapply steps_trans; [|eassumption]. eapply steps_trans; eassumption.
Qed.

(** The ways [updateEpic] ends. *)
Lemma updateEpic_any (epicIssue : Issue) w r w' :
  updateEpic epicIssue w = (r, w') ->
  let lines := split_lines (issue_body epicIssue) in
  match r with
  | ReturnsTrue =>
      exists out cs1 cs2,
        calls w' = calls w ++ cs1
                   ++ IssuesUpdateBody (issue_number epicIssue) (join CRLF out) :: cs2
        /\ Forall (fun c => is_persist c = false) cs1
        /\ Forall (fun c => is_persist c = false) cs2
        /\ length out = length lines
        /\ (forall j line, lines !! j = Some line ->
              out !! j = Some line
              \/ exists m t,
                   (j, m) ∈ checklist (issue_body epicIssue)
                   /\ out !! j = Some (renderLine (pre m) (epicIssueClosed m)
                                         (parseInt (number m)) t))
        /\ (forall k m, (k, m) ∈ checklist (issue_body epicIssue) ->
              is_Some (issues w !! parseInt (number m)))
  | ReturnsFalse =>
      (setFailed w < setFailed w')%nat
      /\ exists cs, calls w' = calls w ++ cs
                    /\ Forall (fun c => is_persist c = false) cs
  | ReturnsUndefined => False
  end.
Proof.
  intros H lines. unfold updateEpic in H. unfold bind at 1 in H.
  destruct (updateEpic_loop _ false _ w) as [l wl] eqn:Hloop.
  destruct (updateEpic_loop_any _ _ _ 0%nat _ _ _ Hloop)
    as (Hs & Hret & Hend & Hmiss).
  destruct l as [r0|out].
  { injection H as <- <-. destruct (Hret _ eq_refl) as [-> Hlt].
    split; [exact Hlt|]. apply Hs. }
  destruct (Hend _ eq_refl) as (Hlen & Hfr).
  destruct Hs as ((cs1 & Hc1 & Hp1) & Hle1 & _).
  unfold bind at 1 in H.
  destruct (octokit_issues_update_body _ _ wl) as [ok wb] eqn:Hu.
  apply update_body_cases in Hu as [[-> ->]|(-> & s & Hse & ->)]; cbn [negb] in H.
  { apply (setFailed_ret_steps (fun c => is_persist c = false)) in H
      as (-> & ((cs & Hc & Hp) & _) & Hlt).
    split; [cbn [setFailed attempt] in Hlt; lia|].
    exists (cs1 ++ cs). cbn [calls attempt] in Hc. rewrite Hc, Hc1, app_assoc.
    split; [reflexivity | apply Forall_app; split; assumption]. }
  set (wb := went_through _ _ wl) in H.
  assert (Hclose : exists cs2, r = ReturnsTrue /\ calls w' = calls wb ++ cs2
                               /\ Forall (fun c => is_persist c = false) cs2).
  { destruct (truthy closeCompletedEpics).
    - unfold bind in H.
      destruct (closeEpicIfComplete _ _ wb) as [b wc] eqn:Hcl.
      injection H as <- <-.
      apply (closeEpicIfComplete_steps (fun c => is_persist c = false)) in Hcl
        as ((cs2 & Hc2 & Hp2) & _); [|reflexivity ..].
      exists cs2. split; [reflexivity|]. split; assumption.
    - injection H as <- <-. exists []. split; [reflexivity|].
      split; [symmetry; apply app_nil_r | constructor]. }
  destruct Hclose as (cs2 & -> & Hc2 & Hp2).
  exists out, cs1, cs2. split.
  { rewrite Hc2. unfold wb. cbn [calls went_through]. rewrite Hc1.
    rewrite <- !app_assoc. reflexivity. }
  split; [exact Hp1|]. split; [exact Hp2|]. split; [exact Hlen|]. split.
  - intros j line Hj. destruct (Hfr j line Hj) as [Hsame|(m & t & Hin & Ho)];
      [left; exact Hsame|]. right. exists m, t. split; assumption.
  - intros k m Hin. destruct (issues w !! parseInt (number m)) eqn:Hk; [eauto|].
    destruct Hmiss as [r Hr]; [|discriminate]. exists k, m. split; assumption.
Qed.


(** X9.  [updateEpic] ends in one of three ways.  On an Epic delivered
    with the body [null], and on no other, it throws: before any call and
    without a call of [core.setFailed] of its own.  Otherwise it returns
    [true] or [false], never nothing.  When it returns [false] it has
    called [core.setFailed] and has persisted no body; when it returns
    [true] it has persisted a body exactly once, under the Epic's number. *)
Theorem X9_false_reports_failure_true_persists_once (epicIssue : Payload) w r w' :
  updateEpic_delivered epicIssue w = (r, w') ->
  (r = TypeError /\ payload_body epicIssue = None /\ w' = w)
  \/ (is_Some (payload_body epicIssue)
      /\ exists cs,
           calls w' = calls w ++ cs
           /\ ((r = Fulfilled ReturnsFalse
                /\ (setFailed w < setFailed w')%nat
                /\ List.filter is_persist cs = [])
               \/ (r = Fulfilled ReturnsTrue
                   /\ exists newBody,
                        List.filter is_persist cs
                        = [IssuesUpdateBody (payload_number epicIssue) newBody]))).
Proof.
  assert (Hnone : forall cs, Forall (fun c => is_persist c = false) cs ->
                             List.filter is_persist cs = []).
  { induction 1 as [|c cs Hc _ IH]; [reflexivity|]. cbn. rewrite Hc. exact IH. }
  intros H. destruct (payload_body epicIssue) as [epicBody|] eqn:Hbody.
  2:{ left. unfold updateEpic_delivered in H. rewrite Hbody in H.
      injection H as <- <-. repeat split. }
  right. split; [eexists; reflexivity|].
  rewrite (updateEpic_delivered_text _ _ _ Hbody) in H.
  destruct (updateEpic (with_body epicIssue epicBody) w) as [r1 w1] eqn:Hu.
  injection H as <- <-. apply updateEpic_any in Hu.
  cbn [with_body issue_body issue_number] in Hu. destruct r1.
  - destruct Hu as (out & cs1 & cs2 & Hc & Hp1 & Hp2 & _).
    eexists. split; [exact Hc|]. right. split; [reflexivity|].
    exists (join CRLF out). rewrite List.filter_app. cbn [List.filter is_persist].
    rewrite (Hnone _ Hp1), (Hnone _ Hp2). reflexivity.
  - destruct Hu as (Hlt & cs & Hc & Hp). exists cs. split; [exact Hc|]. left.
    split; [reflexivity|]. split; [exact Hlt | apply Hnone, Hp].
  - contradiction.
Qed.

(** X10.  A checklist line of the workload section whose task the
    repository does not have ends the pass: [updateEpic] returns [false]
    after [core.setFailed] and persists no body, whatever else throws. *)
Theorem X10_missing_task_fails_the_pass (epicIssue : Issue) w k m :
  (k, m) ∈ checklist (issue_body epicIssue) ->
  issues w !! parseInt (number m) = None ->
  exists w' cs,
    updateEpic epicIssue w = (ReturnsFalse, w')
    /\ (setFailed w < setFailed w')%nat
    /\ calls w' = calls w ++ cs
    /\ List.filter is_persist cs = [].
Proof.
  intros Hin Hnone.
  destruct (updateEpic epicIssue w) as [r w'] eqn:H.
  pose proof (updateEpic_any _ _ _ _ H) as Hany. destruct r.
  - destruct Hany as (_ & _ & _ & _ & _ & _ & _ & _ & Hex).
    destruct (Hex k m Hin) as [s Hs]. congruence.
  - destruct Hany as (Hlt & cs & Hc & Hp). exists w', cs.
    split; [reflexivity|]. split; [exact Hlt|]. split; [exact Hc|].
    clear -Hp. induction Hp as [|c cs Hc _ IH]; [reflexivity|].
    cbn. rewrite Hc. exact IH.
  - contradiction.
Qed.

(** ** [updateEpic] when nothing throws and nothing is missing *)







(** ** [updateEpicFromTask] *)


Lemma updateEpicFromTask_loop_cons taskIssue event rest w :
  updateEpicFromTask_loop taskIssue (event :: rest) w =
  if is_epic_reference event then
    let epicIssue := source_issue event in
    (result <- updateTaskInEpic_delivered (payload_number epicIssue)
                 (payload_body epicIssue) taskIssue ;;
     match result with
     | TypeError => core_setFailed ;;; ret ReturnsUndefined
     | Fulfilled EpicNull => ret ReturnsFalse
     | Fulfilled (EpicObject newBody comment) =>
         ok <- octokit_issues_update_body (payload_number epicIssue) newBody ;;
         if negb ok then core_setFailed ;;; ret ReturnsFalse
         else
           let close_and_continue :=
             if truthy closeCompletedEpics then
               closeEpicIfComplete (payload_number epicIssue) newBody ;;;
               updateEpicFromTask_loop taskIssue rest
             else updateEpicFromTask_loop taskIssue rest in
           if comment_truthy comment then
             ok' <- octokit_issues_createComment (payload_number epicIssue)
                      (default [] comment) ;;
             if negb ok' then core_setFailed ;;; ret ReturnsFalse
             else close_and_continue
           else close_and_continue
     end) w
  else updateEpicFromTask_loop taskIssue rest w.
Proof.
  cbn [updateEpicFromTask_loop]. unfold is_epic_reference.
  destruct (bool_decide (event_event event = js "cross-referenced"));
    [|reflexivity].
  destruct (bool_decide (source_type event = js "issue")); [|reflexivity].
  destruct (startsWith _ epicPrefix); reflexivity.
Qed.



Lemma updateEpicFromTask_loop_no_reference taskIssue events w :
  Forall (fun event => is_epic_reference event = false) events ->
  updateEpicFromTask_loop taskIssue events w = (ReturnsTrue, w).
Proof.
  induction 1 as [|event rest Hev _ IH]; [reflexivity|].
  rewrite updateEpicFromTask_loop_cons, Hev. exact IH.
Qed.

(** X13.  A task that no Epic references is left alone: when no event of
    its timeline is a cross-reference from an issue with the Epic prefix,
    [updateEpicFromTask] lists the timeline, makes no other call and
    returns [true]; and when the listing throws it calls [core.setFailed]
    once and returns [false].  Either way no issue is changed. *)
Theorem X13_task_without_epic_is_left_alone taskIssue w :
  Forall (fun event => is_epic_reference event = false)
    (timeline w (issue_number taskIssue)) ->
  exists w',
    updateEpicFromTask taskIssue w
    = ((if throws w then ReturnsFalse else ReturnsTrue), w')
    /\ issues w' = issues w
    /\ calls w' = calls w
                  ++ (if throws w then []
                      else [IssuesListEventsForTimeline (issue_number taskIssue)])
    /\ setFailed w' = (if throws w then S (setFailed w) else setFailed w).
Proof.
  intros Hno. unfold updateEpicFromTask. unfold bind at 1.
  unfold octokit_issues_listEventsForTimeline. destruct (throws w).
  - eexists. split; [reflexivity|]. cbn. rewrite app_nil_r. repeat split.
  - rewrite updateEpicFromTask_loop_no_reference by exact Hno.
    eexists. split; [reflexivity|]. repeat split.
Qed.

(** ** [updateTaskInEpic]: which line decides *)





(** ** No rollback in [updateTask] *)

(** X16.  With the Epic as truth and the states differing, [updateTask]
    first sets the task's state and then comments on the task.  When the
    comment throws after the state was set, the function calls
    [core.setFailed] and returns [false], and the task keeps its new
    state: nothing is rolled back. *)
Theorem X16_failed_comment_leaves_state_changed epicNumber line m taskIssue s w :
  taskExpression_exec line = Some m ->
  number_ne (number m) (issue_number taskIssue) = false ->
  updateState m taskIssue = true ->
  issues w !! issue_number taskIssue = Some s ->
  fails w (attempts w) = false ->
  fails w (S (attempts w)) = true ->
  exists w',
    updateTask epicNumber line taskIssue false w = (UpdateFalse, w')
    /\ setFailed w' = S (setFailed w)
    /\ calls w' = calls w
                  ++ [IssuesUpdateState (issue_number taskIssue)
                        (closed_word (epicIssueClosed m))]
    /\ issues w' !! issue_number taskIssue
       = Some (mkStored (stored_title s) (closed_word (epicIssueClosed m))
                 (stored_body s)).
Proof.
  intros Hm Hn Hst Hs Hf0 Hf1. unfold updateTask. rewrite Hm, Hn, Hst.
  rewrite andb_false_r.
  unfold bind, octokit_issues_update_state, octokit_issues_createComment, throws.
  rewrite Hf0, Hs. cbn [negb attempts fails went_through]. rewrite Hf1.
  cbn [negb]. eexists. split; [reflexivity|].
  cbn [setFailed calls issues attempt went_through core_setFailed snd ret].
  split; [reflexivity|]. split; [reflexivity|]. apply lookup_insert_eq.
Qed.

End EpicBot.

(** * Instances and counterexamples *)

Lemma C1_render_parse_round_trip_witness :
  render_parse (js "  - [x] #12 Fix it") = Some (js "  - [x] #12 Fix it").
Proof.
  apply (C1_render_parse_round_trip (js "  ") true 12 (js "Fix it")).
  - repeat constructor.
  - vm_compute. reflexivity.
  - split; [vm_compute; discriminate | repeat constructor].
Defined.

(** C1 as stated fails: the line [- [x] #1  T], whose title begins with a
    space, is a checklist line of the stated form, and rendering its parse
    gives [- [x] #1 T]. *)
Lemma C1_counterexample :
  valid_checklist_line (js "- [x] #1  T")
  /\ render_parse (js "- [x] #1  T") = Some (js "- [x] #1 T")
  /\ render_parse (js "- [x] #1  T") <> Some (js "- [x] #1  T").
Proof.
  split; [|split].
  - exists [], (js "x"), 1, (js " T"). split; [constructor|]. split; [left|]; reflexivity.
  - vm_compute. reflexivity.
  - vm_compute. discriminate.
Qed.


(** The scenario of the specification: the line [- [x] #42 Old title]
    against the open task 42 of the same title.  The line comes back as it
    was, the task is closed and commented on.  And the same line against
    the closed task 42 titled [New title], in a repository that holds no
    issue: no call is made and the line comes back with the new title. *)
Lemma C2_epic_truth_line_and_task_calls_witness :
  let w := repository [(42, mkStored (js "Old title") (js "open") [])]
             no_timeline never in
  let empty := repository [] no_timeline never in
  (exists comment w',
     updateTask 7 (js "- [x] #42 Old title")
       (mkIssue 42 (js "Old title") (js "open") []) false w
     = (UpdateObject (js "- [x] #42 Old title") comment, w')
     /\ calls w' =
        [IssuesUpdateState 42 (js "closed");
         IssuesCreateComment 42
           (js "`EpicBot` closed this issue following changes in Epic #7.")])
  /\ (exists comment,
        updateTask 7 (js "- [x] #42 Old title")
          (mkIssue 42 (js "New title") (js "closed") []) false empty
        = (UpdateObject (js "- [x] #42 New title") comment, empty)).
Proof.
  intros w empty. split.
  - destruct (C2_epic_truth_line_and_task_calls 7 (js "- [x] #42 Old title")
                (mkMatch [] (js "x") (js "42") (js "Old title"))
                (mkIssue 42 (js "Old title") (js "open") []) w)
      as (_ & Hcalls & _ & _).
    + vm_compute. reflexivity.
    + vm_compute. reflexivity.
    + vm_compute. reflexivity.
    + vm_compute. reflexivity.
    + vm_compute. reflexivity.
    + destruct Hcalls as (comment & w' & Hrun & Hcalls).
      * vm_compute. reflexivity.
      * reflexivity.
      * reflexivity.
      * vm_compute. eexists. reflexivity.
      * exists comment, w'. split; [rewrite Hrun; reflexivity | exact Hcalls].
  - destruct (C2_epic_truth_line_and_task_calls 7 (js "- [x] #42 Old title")
                (mkMatch [] (js "x") (js "42") (js "Old title"))
                (mkIssue 42 (js "New title") (js "closed") []) empty)
      as (Htitle & _).
    + vm_compute. reflexivity.
    + vm_compute. reflexivity.
    + vm_compute. reflexivity.
    + vm_compute. reflexivity.
    + vm_compute. reflexivity.
    + destruct Htitle as (comment & Hrun); [vm_compute; reflexivity|].
      exists comment. rewrite Hrun. reflexivity.
Defined.

(** C2 as stated fails: the line [- [x] #42 Old title] against the closed
    task 42 titled [New title] differs from it in the title only, and the
    line returned is [- [x] #42 New title], not the line given. *)
Lemma C2_counterexample :
  let line := js "- [x] #42 Old title" in
  let w := repository [] no_timeline never in
  (updateTask 7 line (mkIssue 42 (js "New title") (js "closed") []) false w).1
  = UpdateObject (js "- [x] #42 New title")
      (Some (js "`EpicBot` refreshed the title for task #42."))
  /\ js "- [x] #42 New title" <> line.
Proof. split; [vm_compute; reflexivity | vm_compute; discriminate]. Qed.

(** C5, evaluated.  The body [see_also_body] has the heading
    [## Workload], the closed task line [- [x] #1 A] and the line
    [see also - [ ] #2 B].  By the specification's parser the last line is
    no checklist line, since its checkbox does not start the line: the
    section holds one checklist line, it is closed, and the completion
    verdict is [true].  The source's expression has no anchor and matches
    inside the last line, counts it as an open task and gives the verdict
    [false]: [closeEpicIfComplete] returns [false] and makes no call,
    whatever the repository holds.  Without the last line both verdicts
    are [true]. *)
Theorem C5_checkbox_after_other_text_counts_as_open :
  spec_checklist (js "Workload") see_also_body
  = [mkChecklistLine [] true 1 (js "A")]
  /\ spec_isComplete (js "Workload") see_also_body = true
  /\ snd <$> checklist (js "Workload") see_also_body
     = [mkMatch [] (js "x") (js "1") (js "A");
        mkMatch (js " ") (js " ") (js "2") (js "B")]
  /\ epicIsComplete (js "Workload") see_also_body = false
  /\ (forall epicNumber w,
        closeEpicIfComplete (js "Workload") epicNumber see_also_body w
        = (false, w))
  /\ spec_isComplete (js "Workload")
       (js "## Workload" ++ [LF] ++ js "- [x] #1 A") = true
  /\ epicIsComplete (js "Workload")
       (js "## Workload" ++ [LF] ++ js "- [x] #1 A") = true.
Proof.
  split; [vm_compute; reflexivity|]. split; [vm_compute; reflexivity|].
  split; [vm_compute; reflexivity|]. split; [vm_compute; reflexivity|].
  split; [|split; vm_compute; reflexivity].
  intros epicNumber w. unfold closeEpicIfComplete.
  replace (epicIsComplete (js "Workload") see_also_body) with false
    by (vm_compute; reflexivity).
  reflexivity.
Qed.

(** C8, evaluated.  The task expression has no anchor: on a line whose
    checkbox follows other text it matches all the same, from the spaces
    before the dash on, and [updateTask] then rebuilds the line without the
    text that came first.  A line whose id is not a number is no match. *)
Theorem C8_match_after_other_text :
  taskExpression_exec (js "see also - [ ] #1 T")
  = Some (mkMatch (js " ") (js " ") (js "1") (js "T"))
  /\ (updateTask 7 (js "see also - [ ] #1 T")
        (mkIssue 1 (js "T") (js "closed") []) true
        (repository [] no_timeline never)).1
     = UpdateObject (js " - [x] #1 T")
         (Some (js "`EpicBot` marked task #1 as `closed`."))
  /\ taskExpression_exec (js "- [ ] #one T") = None.
Proof. repeat split; vm_compute; reflexivity. Qed.

(** C9, evaluated.  Epic 10 lists the open tasks 1 and 2 as closed, and the
    call that sets the state of task 1 throws.  [core.setFailed] is called
    once, and the pass goes on all the same: it fetches task 2, closes it,
    comments on it, persists the body and returns [true]. *)
Theorem C9_pass_continues_after_failed_update :
  let r := updateEpic (js "Workload") [] release_epic
             (release_repository (fun k => Nat.eqb k 1)) in
  r.1 = ReturnsTrue
  /\ setFailed r.2 = 1%nat
  /\ calls r.2 =
     [IssuesGet 1;
      IssuesGet 2;
      IssuesUpdateState 2 (js "closed");
      IssuesCreateComment 2
        (js "`EpicBot` closed this issue following changes in Epic #10.");
      IssuesUpdateBody 10
        (js "## Workload" ++ CRLF ++ js "- [x] #1 A" ++ CRLF ++ js "- [x] #2 B")].
Proof. repeat split; vm_compute; reflexivity. Qed.

(** For comparison, the same pass when the fetch of task 1 throws: it is
    given up at once, as the failed state update was meant to do. *)
Example pass_aborts_after_failed_fetch :
  let r := updateEpic (js "Workload") [] release_epic
             (release_repository (fun k => Nat.eqb k 0)) in
  r.1 = ReturnsFalse /\ setFailed r.2 = 1%nat /\ calls r.2 = [].
Proof. repeat split; vm_compute; reflexivity. Qed.

(** C4, evaluated.  Task 5 is referenced from Epic 10, which does not list
    it, and then from Epic 11, which lists it as open.  The pass stops at
    Epic 10 with [false] and never reaches Epic 11: the only call is the
    listing of the timeline.  With the two references in the other order
    Epic 11 is updated. *)
Theorem C4_pass_stops_at_epic_without_the_task :
  let run events :=
    updateEpicFromTask (js "Epic") (js "Workload") [] task5
      (fanout_repository events) in
  (run [cross_referenced epic10; cross_referenced epic11]).1 = ReturnsFalse
  /\ calls (run [cross_referenced epic10; cross_referenced epic11]).2
     = [IssuesListEventsForTimeline 5]
  /\ setFailed (run [cross_referenced epic10; cross_referenced epic11]).2 = 0%nat
  /\ calls (run [cross_referenced epic11; cross_referenced epic10]).2
     = [IssuesListEventsForTimeline 5;
        IssuesUpdateBody 11 (js "## Workload" ++ CRLF ++ js "- [x] #5 T");
        IssuesCreateComment 11 (js "`EpicBot` marked task #5 as `closed`.")].
Proof. repeat split; vm_compute; reflexivity. Qed.





(** Why C3 asks that each task be listed once and that titles be plain. *)

Example second_pass_flips_twice_listed_task :
  let w1 := (updateEpic (js "Workload") [] twice_listed_epic
               twice_listed_repository).2 in
  let w2 := (updateEpic (js "Workload") [] twice_listed_epic w1).2 in
  mutations w2 =
  mutations w1
  ++ [IssuesUpdateState 1 (js "closed");
      IssuesCreateComment 1
        (js "`EpicBot` closed this issue following changes in Epic #10.");
      IssuesUpdateState 1 (js "open");
      IssuesCreateComment 1
        (js "`EpicBot` re-opened this issue following changes in Epic #10.");
      IssuesUpdateBody 10 (issue_body twice_listed_epic)].
Proof. vm_compute. reflexivity. Qed.

Example second_pass_comments_again_on_spaced_title :
  let w1 := (updateEpic (js "Workload") [] spaced_title_epic
               spaced_title_repository).2 in
  let w2 := (updateEpic (js "Workload") [] spaced_title_epic w1).2 in
  mutations w2 =
  mutations w1
  ++ [IssuesCreateComment 10 (js "`EpicBot` refreshed the title for task #1.");
      IssuesUpdateBody 10 (issue_body spaced_title_epic)].
Proof. vm_compute. reflexivity. Qed.

(** * Instances of the further properties *)

Lemma X1_match_is_literally_in_the_line_witness :
  let m := mkMatch (js "  ") (js "x") (js "12") (js "Fix it") in
  exists before sp rest,
    js "see  - [x] #12   Fix it"
    = before ++ pre m ++ js "- [" ++ closed m ++ js "] #" ++ number m
      ++ sp ++ title m ++ rest
    /\ Forall (fun c => c = SPACE) (pre m)
    /\ (exists c, closed m = [c] /\ is_line_terminator c = false)
    /\ number m <> []
    /\ Forall (fun c => is_digit c = true) (number m)
    /\ Forall (fun c => c = SPACE) sp
    /\ plain_title (title m)
    /\ (rest = [] \/ exists c r, rest = c :: r /\ is_line_terminator c = true).
Proof.
  intros m. apply (X1_match_is_literally_in_the_line (js "see  - [x] #12   Fix it") m).
  vm_compute. reflexivity.
Defined.

Lemma X4_task_truth_rebuilt_line_is_up_to_date_witness :
  let taskIssue := mkIssue 42 (js "New title") (js "closed") [] in
  let w := repository [] no_timeline never in
  updateTask 7 (js "- [x] #42 New title") taskIssue true w = (UpdateNull, w).
Proof.
  intros taskIssue w.
  apply (X4_task_truth_rebuilt_line_is_up_to_date 7 (js "- [ ] #42 Old title")
           taskIssue w (js "- [x] #42 New title")
           (Some (js "`EpicBot` refreshed the title for task #42 and marked it as `closed`."))
           w).
  - split; [vm_compute; discriminate | repeat constructor].
  - vm_compute. reflexivity.
Defined.

Lemma X6_updateTaskInEpic_returned_body_is_up_to_date_witness :
  let w := repository [] no_timeline never in
  updateTaskInEpic (js "Workload") 11
    (js "## Workload" ++ CRLF ++ js "- [x] #5 T") task5 w
  = (EpicNull, w).
Proof.
  intros w.
  apply (X6_updateTaskInEpic_returned_body_is_up_to_date (js "Workload") 11
           (issue_body epic11) task5 w _
           (Some (js "`EpicBot` marked task #5 as `closed`.")) w).
  - split; [vm_compute; discriminate | repeat constructor].
  - vm_compute. reflexivity.
Defined.



(** The release Epic when its first call throws, and the Epic without
    description. *)
Lemma X9_false_reports_failure_true_persists_once_witness :
  let w := release_repository (fun k => Nat.eqb k 0) in
  let w' := (updateEpic_delivered (js "Workload") [] (delivered release_epic) w).2 in
  ((Fulfilled ReturnsFalse = TypeError
    /\ payload_body (delivered release_epic) = None /\ w' = w)
   \/ (is_Some (payload_body (delivered release_epic))
       /\ exists cs,
            calls w' = calls w ++ cs
            /\ ((Fulfilled ReturnsFalse = Fulfilled ReturnsFalse
                 /\ (setFailed w < setFailed w')%nat
                 /\ List.filter is_persist cs = [])
                \/ (Fulfilled ReturnsFalse = Fulfilled ReturnsTrue
                    /\ exists newBody,
                         List.filter is_persist cs
                         = [IssuesUpdateBody 10 newBody]))))
  /\ ((@TypeError Returned = TypeError
       /\ payload_body blank_epic = None /\ w = w)
      \/ (is_Some (payload_body blank_epic)
          /\ exists cs,
               calls w = calls w ++ cs
               /\ ((TypeError = Fulfilled ReturnsFalse
                    /\ (setFailed w < setFailed w)%nat
                    /\ List.filter is_persist cs = [])
                   \/ (TypeError = Fulfilled ReturnsTrue
                       /\ exists newBody,
                            List.filter is_persist cs
                            = [IssuesUpdateBody 13 newBody])))).
Proof.
  intros w w'. split.
  - apply (X9_false_reports_failure_true_persists_once (js "Workload") []
             (delivered release_epic) w (Fulfilled ReturnsFalse) w').
    vm_compute. reflexivity.
  - apply (X9_false_reports_failure_true_persists_once (js "Workload") []
             blank_epic w TypeError w).
    reflexivity.
Defined.

Lemma X10_missing_task_fails_the_pass_witness :
  let w := release_repository never in
  exists w' cs,
    updateEpic (js "Workload") [] missing_task_epic w = (ReturnsFalse, w')
    /\ (setFailed w < setFailed w')%nat
    /\ calls w' = calls w ++ cs
    /\ List.filter is_persist cs = [].
Proof.
  intros w.
  apply (X10_missing_task_fails_the_pass (js "Workload") [] missing_task_epic w
           1%nat (mkMatch [] (js "x") (js "3") (js "C"))).
  - apply list_elem_of_In. vm_compute. left. reflexivity.
  - vm_compute. reflexivity.
Defined.



Lemma X13_task_without_epic_is_left_alone_witness :
  let w := fanout_repository [cross_referenced bug_report] in
  exists w',
    updateEpicFromTask (js "Epic") (js "Workload") [] task5 w
    = ((if throws w then ReturnsFalse else ReturnsTrue), w')
    /\ issues w' = issues w
    /\ calls w' = calls w
                  ++ (if throws w then []
                      else [IssuesListEventsForTimeline (issue_number task5)])
    /\ setFailed w' = (if throws w then S (setFailed w) else setFailed w).
Proof.
  intros w.
  apply (X13_task_without_epic_is_left_alone (js "Epic") (js "Workload") [] task5 w).
  vm_compute. repeat constructor.
Defined.



Lemma X16_failed_comment_leaves_state_changed_witness :
  let w := repository [(42, mkStored (js "Old title") (js "open") [])]
             no_timeline (fun k => Nat.eqb k 1) in
  let taskIssue := mkIssue 42 (js "Old title") (js "open") [] in
  exists w',
    updateTask 7 (js "- [x] #42 Old title") taskIssue false w = (UpdateFalse, w')
    /\ setFailed w' = S (setFailed w)
    /\ calls w' = calls w ++ [IssuesUpdateState 42 (js "closed")]
    /\ issues w' !! 42 = Some (mkStored (js "Old title") (js "closed") []).
Proof.
  intros w taskIssue.
  apply (X16_failed_comment_leaves_state_changed 7 (js "- [x] #42 Old title")
           (mkMatch [] (js "x") (js "42") (js "Old title")) taskIssue
           (mkStored (js "Old title") (js "open") []) w).
  - vm_compute. reflexivity.
  - vm_compute. reflexivity.
  - vm_compute. reflexivity.
  - vm_compute. reflexivity.
  - reflexivity.
  - reflexivity.
Defined.
